(** * The knowledge-based Minesweeper player of [minesweeper.py]

    A shallow embedding of the classes [Sentence], [MinesweeperAI] and
    [Minesweeper]: Python sets of cells are [gset (Z * Z)], Python lists
    are lists, the mutable engine object is threaded through a small
    state-and-exception monad, and a method that can raise leaves behind
    the state it had mutated so far.  The draws of [random.choice] and
    [random.randrange] are explicit arguments. *)

From stdpp Require Import base decidable option list gmap sets fin_sets.
From Stdlib Require Import ZArith Lia.

Local Open Scope Z_scope.

(** ** Cells and sentences *)

(** A cell is the Python tuple [(i, j)] of two integers. *)
Abbreviation cell := (Z * Z)%type.

(** [class Sentence]: a set of cells and the number of them that are mines. *)
Record Sentence : Type := mkSentence {
  cells : gset cell;
  count : Z
}.

(** [Sentence.__eq__] compares the cell sets and the counts; it is the
    equality [list.remove] and [list.__contains__] use on [knowledge]. *)
#[global] Instance Sentence_eq_dec : EqDecision Sentence.
Proof. solve_decision. Defined.

(** [len(s)] of a Python set, as a Python integer. *)
Definition len_set (X : gset cell) : Z := Z.of_nat (size X).

Module Sentence.

(** [show_cells] *)
Definition show_cells (self : Sentence) : gset cell := cells self.

(** [known_mines]: [self.cells] when [count == len(cells)], else [None]. *)
Definition known_mines (self : Sentence) : option (gset cell) :=
  if decide (count self = len_set (cells self)) then Some (cells self) else None.

(** [known_safes]: [self.cells] when [count == 0], else [None]. *)
Definition known_safes (self : Sentence) : option (gset cell) :=
  if decide (count self = 0) then Some (cells self) else None.

(** [mark_mine]: remove the cell and decrement the count, if present. *)
Definition mark_mine (c : cell) (self : Sentence) : Sentence :=
  if decide (c ∈ cells self)
  then mkSentence (cells self ∖ {[c]}) (count self - 1)
  else self.

(** [mark_safe]: remove the cell, the count stays, if present. *)
Definition mark_safe (c : cell) (self : Sentence) : Sentence :=
  if decide (c ∈ cells self)
  then mkSentence (cells self ∖ {[c]}) (count self)
  else self.

End Sentence.

(** ** Engine state *)

(** The attributes of a [MinesweeperAI] object. *)
Record AI : Type := mkAI {
  height : Z;
  width : Z;
  moves_made : gset cell;
  mines : gset cell;
  safes : gset cell;
  unclicked : list cell;
  knowledge : list Sentence
}.

Definition set_moves_made (f : gset cell → gset cell) (s : AI) : AI :=
  mkAI (height s) (width s) (f (moves_made s)) (mines s) (safes s)
       (unclicked s) (knowledge s).
Definition set_mines (f : gset cell → gset cell) (s : AI) : AI :=
  mkAI (height s) (width s) (moves_made s) (f (mines s)) (safes s)
       (unclicked s) (knowledge s).
Definition set_safes (f : gset cell → gset cell) (s : AI) : AI :=
  mkAI (height s) (width s) (moves_made s) (mines s) (f (safes s))
       (unclicked s) (knowledge s).
Definition set_unclicked (f : list cell → list cell) (s : AI) : AI :=
  mkAI (height s) (width s) (moves_made s) (mines s) (safes s)
       (f (unclicked s)) (knowledge s).
Definition set_knowledge (f : list Sentence → list Sentence) (s : AI) : AI :=
  mkAI (height s) (width s) (moves_made s) (mines s) (safes s)
       (unclicked s) (f (knowledge s)).

(** ** A state-and-exception monad over the engine object *)

Inductive exn : Type := ValueError.

(** A call either returns a value or raises; both leave a state behind. *)
Inductive outcome (A : Type) : Type :=
| Ret (a : A) (s : AI)
| Exc (e : exn) (s : AI).
Arguments Ret {A} a s.
Arguments Exc {A} e s.

Definition M (A : Type) : Type := AI → outcome A.

#[global] Instance M_ret : MRet M := λ A a s, Ret a s.
#[global] Instance M_bind : MBind M := λ A B k m s,
  match m s with
  | Ret a s' => k a s'
  | Exc e s' => Exc e s'
  end.
Definition get : M AI := λ s, Ret s s.
Definition modify (f : AI → AI) : M unit := λ s, Ret tt (f s).
Definition raise {A} (e : exn) : M A := λ s, Exc e s.

(** [for x in l: body(x)] *)
Fixpoint for_each {A} (l : list A) (body : A → M unit) : M unit :=
  match l with
  | [] => mret tt
  | x :: l' => body x ;; for_each l' body
  end.

(** The state an outcome leaves behind, returned or raised. *)
Definition state_of {A} (o : outcome A) : AI :=
  match o with Ret _ s => s | Exc _ s => s end.

(** ** Python built-ins *)

(** [range(lo, hi)] *)
Definition range (lo hi : Z) : list Z := seqZ lo (hi - lo).

(** [l.remove(x)]: the list without its first item equal to [x], [None]
    (Python raises [ValueError]) when no item is equal to [x]. *)
Fixpoint list_remove {A} `{EqDecision A} (x : A) (l : list A) : option (list A) :=
  match l with
  | [] => None
  | y :: l' => if decide (y = x) then Some l' else (y ::.) <$> list_remove x l'
  end.

(** [random.choice(l)] on a non-empty list, [rnd] being the draw. *)
Definition choice {A} (rnd : nat) (l : list A) : option A :=
  l !! (rnd mod length l)%nat.

(** ** [class MinesweeperAI] *)

Module MinesweeperAI.

(** [__init__]: nothing known, every grid cell unclicked, row by row. *)
Definition init (h w : Z) : AI :=
  mkAI h w ∅ ∅ ∅
       (i ← range 0 h; j ← range 0 w; [(i, j)])
       [].

(** [mark_mine] *)
Definition mark_mine (c : cell) : M unit :=
  modify (set_mines (λ m, m ∪ {[c]})) ;;
  modify (set_knowledge (fmap (Sentence.mark_mine c))).

(** [mark_safe] *)
Definition mark_safe (c : cell) : M unit :=
  modify (set_safes (λ m, m ∪ {[c]})) ;;
  modify (set_knowledge (fmap (Sentence.mark_safe c))).

(** The pairs loop of [make_inferences]: one new sentence for every
    [sentence1], [sentence2] with [sentence1.cells < sentence2.cells]. *)
Definition new_knowledge (K : list Sentence) : list Sentence :=
  s1 ← K; s2 ← K;
  if decide (cells s1 ⊂ cells s2)
  then [mkSentence (cells s2 ∖ cells s1) (count s2 - count s1)]
  else [].

(** The second loop of [make_inferences]: append unless already there. *)
Definition add_new (K : list Sentence) (new_sentence : Sentence) : list Sentence :=
  if decide (new_sentence ∈ K) then K else K ++ [new_sentence].

(** [make_inferences] *)
Definition make_inferences : M unit :=
  self ← get;
  let new := new_knowledge (knowledge self) in
  for_each new (λ new_sentence, modify (set_knowledge (λ K, add_new K new_sentence))).

(** The first loop of [check_obvious], which only reads: the empty
    sentences, the cells of the sentences with count 0, the cells of
    the sentences with [count == len(cells)]. *)
Definition scan_step (acc : list Sentence * list cell * list cell)
    (sentence : Sentence) : list Sentence * list cell * list cell :=
  let '(empty_sets, safe_cells, mine_cells) := acc in
  if decide (len_set (Sentence.show_cells sentence) = 0)
  then (empty_sets ++ [sentence], safe_cells, mine_cells)
  else
    let safe_cells' :=
      match Sentence.known_safes sentence with
      | Some X => safe_cells ++ elements X
      | None => safe_cells
      end in
    let mine_cells' :=
      match Sentence.known_mines sentence with
      | Some X => mine_cells ++ elements X
      | None => mine_cells
      end in
    (empty_sets, safe_cells', mine_cells').

Definition scan (K : list Sentence) : list Sentence * list cell * list cell :=
  foldl scan_step ([], [], []) K.

(** [self.knowledge.remove(element)]: the first equal sentence goes,
    [ValueError] when there is none. *)
Definition knowledge_remove (element : Sentence) : M unit :=
  self ← get;
  match list_remove element (knowledge self) with
  | Some K' => modify (set_knowledge (λ _, K'))
  | None => raise ValueError
  end.

(** [check_obvious] *)
Definition check_obvious : M unit :=
  self ← get;
  let '(empty_sets, safe_cells, mine_cells) := scan (knowledge self) in
  for_each empty_sets knowledge_remove ;;
  for_each safe_cells mark_safe ;;
  for_each mine_cells mark_mine.

(** The list comprehension of [add_knowledge], with the bounds as the
    source computes them (rows against [width], columns against
    [height]). *)
Definition unclicked_neighbors (self : AI) (c : cell) : list cell :=
  let lower_bound_x := Z.max 0 (c.1 - 1) in
  let upper_bound_x := Z.min (width self) (c.1 + 2) in
  let lower_bound_y := Z.max 0 (c.2 - 1) in
  let upper_bound_y := Z.min (height self) (c.2 + 2) in
  i ← range lower_bound_x upper_bound_x;
  j ← range lower_bound_y upper_bound_y;
  if decide ((i, j) ∉ moves_made self) then [(i, j)] else [].

(** [self.unclicked.remove(cell)] *)
Definition unclicked_remove (c : cell) : M unit :=
  self ← get;
  match list_remove c (unclicked self) with
  | Some u' => modify (set_unclicked (λ _, u'))
  | None => raise ValueError
  end.

(** The sentence [add_knowledge] appends to [knowledge]. *)
Definition new_sentence (self : AI) (c : cell) (n : Z) : Sentence :=
  mkSentence (list_to_set (unclicked_neighbors self c)) n.

(** [add_knowledge] *)
Definition add_knowledge (c : cell) (n : Z) : M unit :=
  modify (set_moves_made (λ m, m ∪ {[c]})) ;;
  mark_safe c ;;
  unclicked_remove c ;;
  self ← get;
  modify (set_knowledge (λ K, K ++ [new_sentence self c n])) ;;
  make_inferences ;;
  check_obvious ;;
  self ← get;
  if decide (len_set (safes self) = 0)
  then make_inferences ;; check_obvious
  else mret tt.

(** [make_safe_move] *)
Definition make_safe_move (rnd : nat) : M (option cell) :=
  self ← get;
  let safe_cells_list := elements (safes self ∖ moves_made self) in
  if decide (0 < Z.of_nat (length safe_cells_list))
  then mret (choice rnd safe_cells_list)
  else mret None.

(** [make_random_move] *)
Definition make_random_move (rnd : nat) : M (option cell) :=
  self ← get;
  let mines_list := elements (mines self) in
  let options := filter (λ x, x ∉ mines_list) (unclicked self) in
  if decide (0 < Z.of_nat (length options))
  then mret (choice rnd options)
  else mret None.

End MinesweeperAI.

Import MinesweeperAI.

(** ** Runs of the engine *)

(** The public methods of the engine, with their arguments. *)
Inductive op : Type :=
| AddKnowledge (c : cell) (n : Z)
| MarkMine (c : cell)
| MarkSafe (c : cell)
| MakeInferences
| CheckObvious
| MakeSafeMove (rnd : nat)
| MakeRandomMove (rnd : nat).

(** The state one call leaves behind, whether it returns or raises. *)
Definition step (o : op) (s : AI) : AI :=
  match o with
  | AddKnowledge c n => state_of (add_knowledge c n s)
  | MarkMine c => state_of (mark_mine c s)
  | MarkSafe c => state_of (mark_safe c s)
  | MakeInferences => state_of (make_inferences s)
  | CheckObvious => state_of (check_obvious s)
  | MakeSafeMove rnd => state_of (make_safe_move rnd s)
  | MakeRandomMove rnd => state_of (make_random_move rnd s)
  end.

Definition run (ops : list op) (s : AI) : AI := foldl (λ s o, step o s) s ops.

(** ** Predicates of the specification *)

(** No cell of a live sentence is a confirmed mine, a confirmed safe cell
    or a move made. *)
Definition purged (s : AI) : Prop :=
  ∀ x c, x ∈ knowledge s → c ∈ cells x →
    (c ∉ mines s) ∧ (c ∉ safes s) ∧ (c ∉ moves_made s).

(** [0 <= count <= |cells|] *)
Definition count_ok (x : Sentence) : Prop := 0 ≤ count x ≤ len_set (cells x).

(** The cells of the sentence [add_knowledge c _] builds when called in
    state [s]: the comprehension is evaluated after [c] joined
    [moves_made]. *)
Definition constraint_cells (s : AI) (c : cell) : gset cell :=
  list_to_set (unclicked_neighbors (set_moves_made (λ m, m ∪ {[c]}) s) c).

(** A call agrees with the mine layout [L]: an observed cell is not a
    mine and its count is the number of mines among the cells of the
    sentence built for it; a cell marked as a mine is one, a cell marked
    safe is none. *)
Definition agrees (L : gset cell) (s : AI) (o : op) : bool :=
  match o with
  | AddKnowledge c n =>
      bool_decide (c ∉ L) && bool_decide (n = len_set (constraint_cells s c ∩ L))
  | MarkMine c => bool_decide (c ∈ L)
  | MarkSafe c => bool_decide (c ∉ L)
  | _ => true
  end.

Fixpoint agrees_run (L : gset cell) (ops : list op) (s : AI) : bool :=
  match ops with
  | [] => true
  | o :: ops' => agrees L s o && agrees_run L ops' (step o s)
  end.

(** The neighbourhood as the specification words it: within one row and
    one column of [c], inside the [H] by [W] grid, not [c] itself, not a
    move made. *)
Definition spec_neighbor (H W : Z) (moved : gset cell) (c x : cell) : Prop :=
  Z.abs (x.1 - c.1) ≤ 1 ∧ Z.abs (x.2 - c.2) ≤ 1 ∧
  (0 ≤ x.1 < H) ∧ (0 ≤ x.2 < W) ∧ x ≠ c ∧ x ∉ moved.

(** The body of [add_knowledge] up to its last [if]. *)
Definition first_pass (c : cell) (n : Z) : M unit :=
  modify (set_moves_made (λ m, m ∪ {[c]})) ;;
  mark_safe c ;;
  unclicked_remove c ;;
  self ← get;
  modify (set_knowledge (λ K, K ++ [new_sentence self c n])) ;;
  make_inferences ;;
  check_obvious.

(** [observe] as the specification words its step 5: a second pass when
    no confirmed-safe cell is left to move to. *)
Definition spec_observe (c : cell) (n : Z) : M unit :=
  first_pass c n ;;
  self ← get;
  if decide (safes self ∖ moves_made self = ∅)
  then make_inferences ;; check_obvious
  else mret tt.

(** What [check_obvious] does to one sentence object that stays in
    [knowledge]: [mark_safe] for every collected safe cell, then
    [mark_mine] for every collected mine cell. *)
Definition marked (safe_cells mine_cells : list cell) (x : Sentence) : Sentence :=
  foldl (λ y c, Sentence.mark_mine c y)
        (foldl (λ y c, Sentence.mark_safe c y) x safe_cells) mine_cells.

(** One state is a later stage of another: the grid, the moves and the
    unclicked list are the same, the confirmed sets have grown, and every
    sentence lies within an earlier one. *)
Definition later (s s' : AI) : Prop :=
  height s' = height s ∧ width s' = width s ∧
  moves_made s' = moves_made s ∧ unclicked s' = unclicked s ∧
  mines s ⊆ mines s' ∧ safes s ⊆ safes s' ∧
  ∀ x', x' ∈ knowledge s' → ∃ x, x ∈ knowledge s ∧ cells x' ⊆ cells x.

(** The bookkeeping invariant of the engine. *)
Definition tidy (s : AI) : Prop :=
  NoDup (unclicked s) ∧
  (∀ c, c ∈ moves_made s → c ∉ unclicked s) ∧
  moves_made s ⊆ safes s ∧
  (∀ x, x ∈ knowledge s → cells x ## moves_made s).

(** The knowledge is true of the mine layout [L]. *)
Definition sound (L : gset cell) (s : AI) : Prop :=
  mines s ⊆ L ∧ safes s ## L ∧
  ∀ x, x ∈ knowledge s → count x = len_set (cells x ∩ L).

(** The state [add_knowledge c _] has reached when it calls
    [self.unclicked.remove(cell)]. *)
Definition after_click (c : cell) (s : AI) : AI :=
  mkAI (height s) (width s) (moves_made s ∪ {[c]}) (mines s)
       (safes s ∪ {[c]}) (unclicked s)
       (Sentence.mark_safe c <$> knowledge s).

(** The state [add_knowledge c n] has reached when it first calls
    [make_inferences], [rest] being what [remove] left of [unclicked]. *)
Definition with_sentence (c : cell) (n : Z) (rest : list cell) (s : AI) : AI :=
  let s1 := after_click c s in
  mkAI (height s1) (width s1) (moves_made s1) (mines s1) (safes s1) rest
       (knowledge s1 ++ [new_sentence s1 c n]).

(** A cell of the grid: row below [h], column below [w], as [__init__]
    enumerates them. *)
Definition in_grid (h w : Z) (c : cell) : Prop :=
  (0 ≤ c.1 < h) ∧ (0 ≤ c.2 < w).

#[global] Instance in_grid_dec h w c : Decision (in_grid h w c).
Proof. unfold in_grid. apply _. Defined.

(** ** [class Minesweeper] *)

(** [l[i]] on a Python list: a negative index counts from the end, an
    index out of range is [None] (Python raises [IndexError]). *)
Definition py_index {A} (l : list A) (i : Z) : option A :=
  if decide (0 ≤ i) then l !! Z.to_nat i
  else if decide (- Z.of_nat (length l) ≤ i)
       then l !! Z.to_nat (Z.of_nat (length l) + i)
       else None.

(** [l[i] = x] on a Python list, with the same indices. *)
Definition py_set {A} (l : list A) (i : Z) (x : A) : option (list A) :=
  if decide (0 ≤ i < Z.of_nat (length l))
  then Some (<[Z.to_nat i := x]> l)
  else if decide (- Z.of_nat (length l) ≤ i < 0)
       then Some (<[Z.to_nat (Z.of_nat (length l) + i) := x]> l)
       else None.

Module Minesweeper.

(** The attributes of a [Minesweeper] object. *)
Record Game : Type := mkGame {
  height : Z;
  width : Z;
  mines : gset cell;
  board : list (list bool);
  mines_found : gset cell
}.

(** How a call of [__init__] ends: with the object, with the
    [ValueError] of [random.randrange] on an empty range, with an
    [IndexError], or still in its loop when the draws are used up. *)
Inductive built : Type :=
| Built (g : Game)
| RaisedValueError
| RaisedIndexError
| OutOfDraws.

(** [self.board[i][j]] *)
Definition board_at (self : Game) (i j : Z) : option bool :=
  row ← py_index (board self) i; py_index row j.

(** The field [__init__] starts from: [height] rows of [width] times
    [False]. *)
Definition empty_board (h w : Z) : list (list bool) :=
  (λ _, (λ _, false) <$> range 0 w) <$> range 0 h.

(** [random.randrange(n)], [r] being the draw: a number below [n], or
    [None] (Python raises [ValueError]) when [n] is not positive. *)
Definition randrange (n : Z) (r : nat) : option Z :=
  if decide (0 < n) then Some (Z.of_nat r `mod` n) else None.

(** The loop [while len(self.mines) != mines] of [__init__], one pair of
    draws for each round. *)
Fixpoint place (target : Z) (draws : list (nat * nat)) (self : Game) : built :=
  if decide (len_set (mines self) = target) then Built self
  else
    match draws with
    | [] => OutOfDraws
    | (r1, r2) :: draws' =>
        match randrange (height self) r1 with
        | None => RaisedValueError
        | Some i =>
            match randrange (width self) r2 with
            | None => RaisedValueError
            | Some j =>
                match board_at self i j with
                | None => RaisedIndexError
                | Some true => place target draws' self
                | Some false =>
                    match (row ← py_index (board self) i;
                           row' ← py_set row j true;
                           py_set (board self) i row') with
                    | None => RaisedIndexError
                    | Some board' =>
                        place target draws'
                          (mkGame (height self) (width self)
                                  (mines self ∪ {[(i, j)]}) board'
                                  (mines_found self))
                    end
                end
            end
        end
    end.

(** [__init__] *)
Definition init (h w target : Z) (draws : list (nat * nat)) : built :=
  match place target draws (mkGame h w ∅ (empty_board h w) ∅) with
  | Built self =>
      Built (mkGame (height self) (width self) (mines self) (board self) ∅)
  | other => other
  end.

(** [is_mine] *)
Definition is_mine (self : Game) (c : cell) : option bool :=
  board_at self c.1 c.2.

(** [nearby_mines]: the count is [None] when an index is out of range. *)
Definition nearby_mines (self : Game) (c : cell) : option Z :=
  foldl (λ (count : option Z) (ij : cell),
           n ← count;
           if decide (ij = c) then Some n
           else if decide ((0 ≤ ij.1 < height self) ∧ (0 ≤ ij.2 < width self))
                then b ← board_at self ij.1 ij.2;
                     Some (if b : bool then n + 1 else n)
                else Some n)
        (Some 0)
        (i ← range (c.1 - 1) (c.1 + 2); j ← range (c.2 - 1) (c.2 + 2); [(i, j)]).

(** [won] *)
Definition won (self : Game) : bool :=
  bool_decide (mines_found self = mines self).

(** The board says [True] exactly at the mines, and every mine is a cell
    of the grid. *)
Definition well_formed (self : Game) : Prop :=
  (∀ c, in_grid (height self) (width self) c →
        board_at self c.1 c.2 = Some (bool_decide (c ∈ mines self))) ∧
  (∀ c, c ∈ mines self → in_grid (height self) (width self) c).

(** The cells a list of draws hits on an [h] by [w] grid. *)
Definition hits (h w : Z) (draws : list (nat * nat)) : gset cell :=
  list_to_set ((λ r : nat * nat,
                  (Z.of_nat r.1 `mod` h, Z.of_nat r.2 `mod` w)) <$> draws).

End Minesweeper.

(** The board has [height] rows of [width] entries. *)
Definition board_shaped (g : Minesweeper.Game) : Prop :=
  length (Minesweeper.board g) = Z.to_nat (Minesweeper.height g) ∧
  ∀ i row, Minesweeper.board g !! i = Some row →
           length row = Z.to_nat (Minesweeper.width g).

(** A call of the engine as a driver of the game makes it: a cell is
    observed when it is unclicked and no mine, with the count the board
    gives for it; a cell is marked as a mine or as safe only when it is
    one. *)
Definition played (g : Minesweeper.Game) (s : AI) (o : op) : bool :=
  match o with
  | AddKnowledge c n =>
      bool_decide (c ∈ unclicked s) &&
      bool_decide (Minesweeper.is_mine g c = Some false) &&
      bool_decide (Minesweeper.nearby_mines g c = Some n)
  | MarkMine c => bool_decide (c ∈ Minesweeper.mines g)
  | MarkSafe c => bool_decide (c ∉ Minesweeper.mines g)
  | _ => true
  end.

Fixpoint played_run (g : Minesweeper.Game) (ops : list op) (s : AI) : bool :=
  match ops with
  | [] => true
  | o :: ops' => played g s o && played_run g ops' (step o s)
  end.

(** * Properties *)

(** ** The monad *)

Lemma bind_ret {A B} (m : M A) (k : A → M B) s a s' :
  m s = Ret a s' → (m ≫= k) s = k a s'.
Proof. intros E. unfold mbind, M_bind. by rewrite E. Qed.

Lemma bind_exc {A B} (m : M A) (k : A → M B) s e s' :
  m s = Exc e s' → (m ≫= k) s = Exc e s'.
Proof. intros E. unfold mbind, M_bind. by rewrite E. Qed.

Lemma for_each_total {A} (body : A → M unit) (f : A → AI → AI) :
  (∀ x s, body x s = Ret tt (f x s)) →
  ∀ l s, for_each l body s = Ret tt (foldl (λ s x, f x s) s l).
Proof.
  intros Hbody l. induction l as [|x l IH]; intros s; [done|].
  cbn [for_each foldl]. erewrite bind_ret by apply Hbody. apply IH.
Qed.

(** ** Sentences *)

Lemma sentence_mark_safe_eq c x :
  Sentence.mark_safe c x = mkSentence (cells x ∖ {[c]}) (count x).
Proof.
  unfold Sentence.mark_safe. case_decide; [done|].
  destruct x as [X k]; cbn [cells count] in *. f_equal. set_solver.
Qed.

Lemma sentence_mark_mine_eq c x :
  Sentence.mark_mine c x =
  mkSentence (cells x ∖ {[c]}) (count x - len_set (cells x ∩ {[c]})).
Proof.
  unfold Sentence.mark_mine, len_set. case_decide as Hc.
  - f_equal. assert (cells x ∩ {[c]} = {[c]}) as -> by set_solver.
    by rewrite size_singleton.
  - destruct x as [X k]; cbn [cells count] in *.
    assert (X ∩ {[c]} = ∅) as -> by set_solver.
    rewrite size_empty. f_equal; [set_solver | lia].
Qed.

Lemma foldl_mark_safe l x :
  foldl (λ y c, Sentence.mark_safe c y) x l =
  mkSentence (cells x ∖ list_to_set l) (count x).
Proof.
  revert x. induction l as [|c l IH]; intros x; cbn [foldl list_to_set].
  - destruct x as [X k]; cbn [cells count]. f_equal. set_solver.
  - rewrite IH, sentence_mark_safe_eq. cbn [cells count]. f_equal. set_solver.
Qed.

Lemma foldl_mark_mine l x :
  foldl (λ y c, Sentence.mark_mine c y) x l =
  mkSentence (cells x ∖ list_to_set l)
             (count x - len_set (cells x ∩ list_to_set l)).
Proof.
  revert x. induction l as [|c l IH]; intros x; cbn [foldl list_to_set].
  - destruct x as [X k]; cbn [cells count]. unfold len_set.
    assert (X ∩ ∅ = ∅) as -> by set_solver.
    rewrite size_empty. f_equal; [set_solver | lia].
  - rewrite IH, sentence_mark_mine_eq. cbn [cells count]. f_equal; [set_solver|].
    unfold len_set.
    assert (cells x ∩ ({[c]} ∪ list_to_set l) =
            (cells x ∩ {[c]}) ∪ ((cells x ∖ {[c]}) ∩ list_to_set l)) as ->.
    { apply set_eq. intros y. destruct (decide (y = c)); set_solver. }
    pose proof (size_union (cells x ∩ {[c]}) ((cells x ∖ {[c]}) ∩ list_to_set l)) as Hs.
    rewrite Hs by set_solver. lia.
Qed.

Lemma marked_eq sc mc x :
  marked sc mc x =
  mkSentence (cells x ∖ list_to_set sc ∖ list_to_set mc)
             (count x - len_set ((cells x ∖ list_to_set sc) ∩ list_to_set mc)).
Proof. unfold marked. by rewrite foldl_mark_safe, foldl_mark_mine. Qed.

(** ** Python's [list.remove] *)

Lemma list_remove_Some {A} `{EqDecision A} (x : A) pre l :
  (∀ y, y ∈ pre → y ≠ x) → list_remove x (pre ++ x :: l) = Some (pre ++ l).
Proof.
  induction pre as [|y pre IH]; intros Hpre; cbn [list_remove app].
  - by rewrite decide_True.
  - rewrite decide_False by (apply Hpre; left).
    rewrite IH; [done|]. intros z Hz. apply Hpre. by right.
Qed.

Lemma list_remove_None {A} `{EqDecision A} (x : A) l :
  x ∉ l → list_remove x l = None.
Proof.
  induction l as [|y l IH]; intros Hx; cbn [list_remove]; [done|].
  rewrite decide_False by (intros ->; apply Hx; left).
  rewrite IH; [done|]. intros Hl. apply Hx. by right.
Qed.

Lemma list_remove_elem_of {A} `{EqDecision A} (x : A) l :
  x ∈ l → ∃ pre post, l = pre ++ x :: post ∧ x ∉ pre ∧
                      list_remove x l = Some (pre ++ post).
Proof.
  induction l as [|y l IH]; intros Hx; [by apply elem_of_nil in Hx|].
  destruct (decide (y = x)) as [->|Hne].
  - exists [], l. split_and!; [done|apply not_elem_of_nil|].
    cbn [list_remove]. by rewrite decide_True.
  - apply elem_of_cons in Hx as [->|Hx]; [done|].
    destruct (IH Hx) as (pre & post & -> & Hpre & Hrm).
    exists (y :: pre), post. split_and!; [done| |].
    + intros [->|?]%elem_of_cons; [done|by apply Hpre].
    + cbn [list_remove]. rewrite decide_False by done. by rewrite Hrm.
Qed.

(** ** Closed forms of the engine's methods *)

Lemma mark_safe_run c s :
  mark_safe c s =
  Ret tt (mkAI (height s) (width s) (moves_made s) (mines s)
               (safes s ∪ {[c]}) (unclicked s)
               (Sentence.mark_safe c <$> knowledge s)).
Proof. reflexivity. Qed.

Lemma mark_mine_run c s :
  mark_mine c s =
  Ret tt (mkAI (height s) (width s) (moves_made s) (mines s ∪ {[c]})
               (safes s) (unclicked s)
               (Sentence.mark_mine c <$> knowledge s)).
Proof. reflexivity. Qed.

Lemma for_each_mark_safe l s :
  for_each l mark_safe s =
  Ret tt (mkAI (height s) (width s) (moves_made s) (mines s)
               (safes s ∪ list_to_set l) (unclicked s)
               ((λ x, foldl (λ y c, Sentence.mark_safe c y) x l) <$> knowledge s)).
Proof.
  revert s. induction l as [|c l IH]; intros s.
  - destruct s. cbn. rewrite list_fmap_id. do 2 f_equal. set_solver.
  - cbn [for_each]. erewrite bind_ret by apply mark_safe_run.
    rewrite IH. cbn [height width moves_made mines safes unclicked knowledge
                     foldl list_to_set].
    rewrite <- list_fmap_compose. do 2 f_equal. set_solver.
Qed.

Lemma for_each_mark_mine l s :
  for_each l mark_mine s =
  Ret tt (mkAI (height s) (width s) (moves_made s) (mines s ∪ list_to_set l)
               (safes s) (unclicked s)
               ((λ x, foldl (λ y c, Sentence.mark_mine c y) x l) <$> knowledge s)).
Proof.
  revert s. induction l as [|c l IH]; intros s.
  - destruct s. cbn. rewrite list_fmap_id. do 2 f_equal. set_solver.
  - cbn [for_each]. erewrite bind_ret by apply mark_mine_run.
    rewrite IH. cbn [height width moves_made mines safes unclicked knowledge
                     foldl list_to_set].
    rewrite <- list_fmap_compose. do 2 f_equal. set_solver.
Qed.

Lemma make_inferences_run s :
  make_inferences s =
  Ret tt (set_knowledge (λ K, foldl add_new K (new_knowledge K)) s).
Proof.
  unfold make_inferences.
  change (for_each (new_knowledge (knowledge s))
            (λ x, modify (set_knowledge (λ K, add_new K x))) s = 
          Ret tt (set_knowledge (λ K, foldl add_new K (new_knowledge K)) s)).
  rewrite (for_each_total _ (λ x, set_knowledge (λ K, add_new K x))) by done.
  f_equal. unfold set_knowledge at 2.
  generalize (new_knowledge (knowledge s)). intros l.
  revert s. induction l as [|x l IH]; intros s; [by destruct s|].
  cbn [foldl]. by rewrite IH.
Qed.

(** The three lists [check_obvious] collects. *)
Lemma scan_spec K :
  ∀ e sc mc, scan K = (e, sc, mc) →
    e = filter (λ x, len_set (Sentence.show_cells x) = 0) K ∧
    (∀ c, c ∈ sc ↔ ∃ x, x ∈ K ∧ cells x ≠ ∅ ∧ count x = 0 ∧ c ∈ cells x) ∧
    (∀ c, c ∈ mc ↔ ∃ x, x ∈ K ∧ cells x ≠ ∅ ∧
                        count x = len_set (cells x) ∧ c ∈ cells x).
Proof.
  unfold scan.
  assert (∀ e0 sc0 mc0 e sc mc,
    foldl scan_step (e0, sc0, mc0) K = (e, sc, mc) →
    e = e0 ++ filter (λ x, len_set (Sentence.show_cells x) = 0) K ∧
    (∀ c, c ∈ sc ↔ c ∈ sc0 ∨
        ∃ x, x ∈ K ∧ cells x ≠ ∅ ∧ count x = 0 ∧ c ∈ cells x) ∧
    (∀ c, c ∈ mc ↔ c ∈ mc0 ∨
        ∃ x, x ∈ K ∧ cells x ≠ ∅ ∧ count x = len_set (cells x) ∧ c ∈ cells x))
    as Hgen.
  { induction K as [|x K IH]; intros e0 sc0 mc0 e sc mc Hs.
    - cbn in Hs. injection Hs as <- <- <-. rewrite app_nil_r.
      split; [done|]. split; intros c; split; try tauto;
        intros [?|(x & Hx & _)]; try done; by apply elem_of_nil in Hx.
    - cbn [foldl] in Hs. unfold scan_step at 2 in Hs.
      assert (len_set (cells x) = 0 ↔ cells x = ∅) as Hempty.
      { unfold len_set. split.
        - intros Hz. apply leibniz_equiv, size_empty_iff. lia.
        - intros ->. by rewrite size_empty. }
      unfold Sentence.show_cells in *.
      destruct (decide (len_set (cells x) = 0)) as [Hx|Hx].
      + apply IH in Hs as (-> & Hsc & Hmc).
        rewrite filter_cons_True by done. rewrite <- app_assoc.
        split; [done|]. split; intros c.
        * rewrite Hsc. split; intros [?|(y & Hy & Hne & ?)]; auto.
          -- right. exists y. split; [by right|done].
          -- apply elem_of_cons in Hy as [->|Hy]; [by apply Hempty in Hx|].
             right. by exists y.
        * rewrite Hmc. split; intros [?|(y & Hy & Hne & ?)]; auto.
          -- right. exists y. split; [by right|done].
          -- apply elem_of_cons in Hy as [->|Hy]; [by apply Hempty in Hx|].
             right. by exists y.
      + apply IH in Hs as (-> & Hsc & Hmc).
        rewrite filter_cons_False by done.
        assert (cells x ≠ ∅) as Hne by (by rewrite <- Hempty).
        split; [done|]. split; intros c.
        * rewrite Hsc. unfold Sentence.known_safes. clear Hsc Hmc.
          case_decide as Hk.
          -- rewrite elem_of_app, elem_of_elements. split.
             ++ intros [[?|?]|(y & Hy & ?)]; auto.
                ** right. exists x. split; [left|done].
                ** right. exists y. split; [by right|done].
             ++ intros [?|(y & Hy & ? & ? & ?)]; auto.
                apply elem_of_cons in Hy as [->|Hy]; auto.
                right. by exists y.
          -- split.
             ++ intros [?|(y & Hy & ?)]; auto.
                right. exists y. split; [by right|done].
             ++ intros [?|(y & Hy & ? & ? & ?)]; auto.
                apply elem_of_cons in Hy as [->|Hy]; [done|].
                right. by exists y.
        * rewrite Hmc. unfold Sentence.known_mines. clear Hsc Hmc.
          case_decide as Hk.
          -- rewrite elem_of_app, elem_of_elements. split.
             ++ intros [[?|?]|(y & Hy & ?)]; auto.
                ** right. exists x. split; [left|done].
                ** right. exists y. split; [by right|done].
             ++ intros [?|(y & Hy & ? & ? & ?)]; auto.
                apply elem_of_cons in Hy as [->|Hy]; auto.
                right. by exists y.
          -- split.
             ++ intros [?|(y & Hy & ?)]; auto.
                right. exists y. split; [by right|done].
             ++ intros [?|(y & Hy & ? & ? & ?)]; auto.
                apply elem_of_cons in Hy as [->|Hy]; [done|].
                right. by exists y. }
  intros e sc mc Hs. apply Hgen in Hs as (-> & Hsc & Hmc).
  split; [done|]. split; intros c; [rewrite Hsc|rewrite Hmc];
    (split; [intros [Hn|?]; [by apply elem_of_nil in Hn|done] | by right]).
Qed.

Lemma len_set_zero (X : gset cell) : len_set X = 0 ↔ X = ∅.
Proof.
  unfold len_set. split.
  - intros Hz. apply leibniz_equiv, size_empty_iff. lia.
  - intros ->. by rewrite size_empty.
Qed.

(** Removing the collected empty sentences one by one never raises and
    leaves exactly the non-empty sentences, in their order. *)
Lemma remove_empties K :
  ∀ pre s,
    knowledge s = pre ++ K →
    (∀ y, y ∈ pre → len_set (Sentence.show_cells y) ≠ 0) →
    for_each (filter (λ x, len_set (Sentence.show_cells x) = 0) K)
             knowledge_remove s =
    Ret tt (set_knowledge
              (λ _, pre ++ filter (λ x, len_set (Sentence.show_cells x) ≠ 0) K) s).
Proof.
  induction K as [|x K IH]; intros pre s HK Hpre.
  - cbn. destruct s; cbn in *. subst. by rewrite app_nil_r.
  - destruct (decide (len_set (Sentence.show_cells x) = 0)) as [Hx|Hx].
    + rewrite filter_cons_True by done.
      rewrite filter_cons_False by (intros Hn; by apply Hn).
      cbn [for_each].
      assert (knowledge_remove x s = Ret tt (set_knowledge (λ _, pre ++ K) s))
        as Hrm.
      { unfold knowledge_remove.
        change ((match list_remove x (knowledge s) with
                 | Some K' => modify (set_knowledge (λ _, K'))
                 | None => raise ValueError
                 end) s = Ret tt (set_knowledge (λ _, pre ++ K) s)).
        rewrite HK, list_remove_Some; [done|].
        intros y Hy ->. by apply (Hpre x). }
      erewrite bind_ret by apply Hrm.
      rewrite (IH pre) by done. by destruct s.
    + rewrite filter_cons_False by done. rewrite filter_cons_True by done.
      rewrite (IH (pre ++ [x])).
      * by rewrite <- app_assoc.
      * by rewrite <- app_assoc.
      * intros y [Hy| ->%list_elem_of_singleton]%elem_of_app; auto.
Qed.

Lemma check_obvious_run s :
  ∃ sc mc,
    scan (knowledge s) =
      (filter (λ x, len_set (Sentence.show_cells x) = 0) (knowledge s), sc, mc) ∧
    check_obvious s =
    Ret tt (mkAI (height s) (width s) (moves_made s)
                 (mines s ∪ list_to_set mc) (safes s ∪ list_to_set sc)
                 (unclicked s)
                 (marked sc mc <$>
                    filter (λ x, len_set (Sentence.show_cells x) ≠ 0) (knowledge s))).
Proof.
  destruct (scan (knowledge s)) as [[e sc] mc] eqn:Hscan.
  exists sc, mc. pose proof (scan_spec _ _ _ _ Hscan) as (-> & _ & _).
  split; [done|].
  unfold check_obvious.
  change ((let '(empty_sets, safe_cells, mine_cells) := scan (knowledge s) in
           for_each empty_sets knowledge_remove ;;
           for_each safe_cells mark_safe ;;
           for_each mine_cells mark_mine) s = 
          Ret tt (mkAI (height s) (width s) (moves_made s)
                 (mines s ∪ list_to_set mc) (safes s ∪ list_to_set sc)
                 (unclicked s)
                 (marked sc mc <$>
                    filter (λ x, len_set (Sentence.show_cells x) ≠ 0) (knowledge s)))).
  rewrite Hscan.
  erewrite bind_ret by (apply (remove_empties _ []); [done|by intros ? ?%elem_of_nil]).
  erewrite bind_ret by apply for_each_mark_safe.
  rewrite for_each_mark_mine.
  cbn [height width moves_made mines safes unclicked knowledge set_knowledge app].
  by rewrite <- list_fmap_compose.
Qed.

(** ** Later stages *)

Lemma later_refl s : later s s.
Proof. unfold later. split_and!; try done. intros x Hx. by exists x. Qed.

Lemma later_trans s1 s2 s3 : later s1 s2 → later s2 s3 → later s1 s3.
Proof.
  intros (Hh1 & Hw1 & Hm1 & Hu1 & Hmi1 & Hs1 & Hk1)
         (Hh2 & Hw2 & Hm2 & Hu2 & Hmi2 & Hs2 & Hk2).
  unfold later. split_and!; [congruence|congruence|congruence|congruence| | |].
  { set_solver. }
  { set_solver. }
  intros x3 Hx3. destruct (Hk2 _ Hx3) as (x2 & Hx2 & H32).
  destruct (Hk1 _ Hx2) as (x1 & Hx1 & H21). exists x1. set_solver.
Qed.

Lemma later_mark_safe c s : later s (state_of (mark_safe c s)).
Proof.
  rewrite mark_safe_run. unfold later; cbn. split_and!; try done; [set_solver|].
  intros x' (x & -> & Hx)%list_elem_of_fmap. exists x. split; [done|].
  rewrite sentence_mark_safe_eq. cbn. set_solver.
Qed.

Lemma later_mark_mine c s : later s (state_of (mark_mine c s)).
Proof.
  rewrite mark_mine_run. unfold later; cbn. split_and!; try done; [set_solver|].
  intros x' (x & -> & Hx)%list_elem_of_fmap. exists x. split; [done|].
  rewrite sentence_mark_mine_eq. cbn. set_solver.
Qed.

(** What [make_inferences] leaves in [knowledge]: the old sentences, then
    new ones, each derived from a pair, none twice, none already there. *)
Lemma foldl_add_new new K :
  ∃ added,
    foldl add_new K new = K ++ added ∧
    NoDup added ∧
    (∀ x, x ∈ added → x ∈ new ∧ x ∉ K) ∧
    (∀ x, x ∈ new → x ∈ K ++ added).
Proof.
  revert K. induction new as [|y new IH]; intros K.
  - exists []. rewrite app_nil_r. split_and!; try done; [constructor| |].
    + by intros ? ?%elem_of_nil.
    + by intros ? ?%elem_of_nil.
  - cbn [foldl]. unfold add_new at 2. case_decide as Hy.
    + destruct (IH K) as (added & -> & Hnd & Hadd & Hnew).
      exists added. split_and!; try done.
      * intros x Hx. destruct (Hadd _ Hx). split; [by right|done].
      * intros x [->|Hx]%elem_of_cons; [|by apply Hnew].
        apply elem_of_app. by left.
    + destruct (IH (K ++ [y])) as (added & -> & Hnd & Hadd & Hnew).
      exists (y :: added). rewrite <- app_assoc. split_and!; try done.
      * constructor; [|done]. intros Hin. destruct (Hadd _ Hin) as [_ Hn].
        apply Hn, elem_of_app. right. by left.
      * intros x [->|Hx]%elem_of_cons; [split; [by left|done]|].
        destruct (Hadd _ Hx) as [? Hn]. split; [by right|].
        intros ?. apply Hn, elem_of_app. by left.
      * intros x Hx. apply elem_of_app.
        apply elem_of_cons in Hx as [->|Hx]; [right; left|].
        apply Hnew in Hx.
        apply elem_of_app in Hx as [[?| ->%list_elem_of_singleton]%elem_of_app|?].
        -- by left.
        -- right. left.
        -- right. by right.
Qed.

Lemma elem_of_new_knowledge K x :
  x ∈ new_knowledge K ↔
  ∃ A B, A ∈ K ∧ B ∈ K ∧ cells A ⊂ cells B ∧
         x = mkSentence (cells B ∖ cells A) (count B - count A).
Proof.
  unfold new_knowledge. rewrite list_elem_of_bind. split.
  - intros (A & (B & HB & HBK)%list_elem_of_bind & HA).
    case_decide; [|by apply elem_of_nil in HB].
    apply list_elem_of_singleton in HB. by exists A, B.
  - intros (A & B & HA & HB & Hsub & ->). exists A. split; [|done].
    apply list_elem_of_bind. exists B. split; [|done].
    rewrite decide_True by done. by left.
Qed.

Lemma later_make_inferences s : later s (state_of (make_inferences s)).
Proof.
  rewrite make_inferences_run. unfold later; cbn. split_and!; try done.
  intros x' Hx'.
  destruct (foldl_add_new (new_knowledge (knowledge s)) (knowledge s))
    as (added & Heq & _ & Hadd & _).
  rewrite Heq in Hx'. apply elem_of_app in Hx' as [Hx'|Hx'].
  - by exists x'.
  - apply Hadd in Hx' as [(A & B & _ & HB & _ & ->)%elem_of_new_knowledge _].
    exists B. split; [done|]. cbn. set_solver.
Qed.

Lemma later_check_obvious s : later s (state_of (check_obvious s)).
Proof.
  destruct (check_obvious_run s) as (sc & mc & _ & ->).
  unfold later; cbn. split_and!; try done; try set_solver.
  intros x' (x & -> & [_ Hx]%list_elem_of_filter)%list_elem_of_fmap.
  exists x. split; [done|]. rewrite marked_eq. cbn. set_solver.
Qed.

(** ** Closed form of [add_knowledge] *)

Lemma check_obvious_returns s :
  check_obvious s = Ret tt (state_of (check_obvious s)).
Proof. destruct (check_obvious_run s) as (sc & mc & _ & ->). done. Qed.

Lemma make_inferences_returns s :
  make_inferences s = Ret tt (state_of (make_inferences s)).
Proof. by rewrite make_inferences_run. Qed.

Lemma unclicked_remove_run c s :
  unclicked_remove c s =
  match list_remove c (unclicked s) with
  | Some rest => Ret tt (set_unclicked (λ _, rest) s)
  | None => Exc ValueError s
  end.
Proof.
  unfold unclicked_remove.
  change ((match list_remove c (unclicked s) with
           | Some u' => modify (set_unclicked (λ _, u'))
           | None => raise ValueError
           end) s =
          match list_remove c (unclicked s) with
          | Some rest => Ret tt (set_unclicked (λ _, rest) s)
          | None => Exc ValueError s
          end).
  by destruct (list_remove c (unclicked s)).
Qed.

Lemma first_pass_run c n s :
  first_pass c n s =
  match list_remove c (unclicked s) with
  | Some rest =>
      Ret tt (state_of (check_obvious
                (state_of (make_inferences (with_sentence c n rest s)))))
  | None => Exc ValueError (after_click c s)
  end.
Proof.
  unfold first_pass.
  erewrite bind_ret by reflexivity.
  erewrite bind_ret by apply mark_safe_run.
  pose proof (unclicked_remove_run c (after_click c s)) as Hrm.
  change (unclicked (after_click c s)) with (unclicked s) in Hrm.
  destruct (list_remove c (unclicked s)) as [rest|].
  - erewrite bind_ret by apply Hrm.
    erewrite bind_ret by reflexivity.
    erewrite bind_ret by reflexivity.
    erewrite bind_ret by apply make_inferences_returns.
    apply check_obvious_returns.
  - erewrite bind_exc by apply Hrm. done.
Qed.

Lemma safes_after_first_pass c n rest s :
  c ∈ safes (state_of (check_obvious
               (state_of (make_inferences (with_sentence c n rest s))))).
Proof.
  pose proof (later_make_inferences (with_sentence c n rest s)) as H1.
  pose proof (later_check_obvious
                (state_of (make_inferences (with_sentence c n rest s)))) as H2.
  destruct (later_trans _ _ _ H1 H2) as (_ & _ & _ & _ & _ & Hs & _).
  apply Hs. cbn. set_solver.
Qed.

(** The test [len(self.safes) == 0] of [add_knowledge] never holds: the
    observed cell itself is in [safes]. *)
Lemma add_knowledge_first_pass c n s : add_knowledge c n s = first_pass c n s.
Proof.
  rewrite first_pass_run. unfold add_knowledge.
  erewrite bind_ret by reflexivity.
  erewrite bind_ret by apply mark_safe_run.
  pose proof (unclicked_remove_run c (after_click c s)) as Hrm.
  change (unclicked (after_click c s)) with (unclicked s) in Hrm.
  destruct (list_remove c (unclicked s)) as [rest|].
  - erewrite bind_ret by apply Hrm.
    erewrite bind_ret by reflexivity.
    erewrite bind_ret by reflexivity.
    erewrite bind_ret by apply make_inferences_returns.
    erewrite bind_ret by apply check_obvious_returns.
    erewrite bind_ret by reflexivity.
    rewrite decide_False; [done|].
    intros Hz%len_set_zero.
    pose proof (safes_after_first_pass c n rest s) as Hc.
    change (with_sentence c n rest s) with
      (set_knowledge (λ K, K ++ [new_sentence (set_unclicked (λ _, rest) (after_click c s)) c n])
         (set_unclicked (λ _, rest) (after_click c s))) in Hc.
    rewrite Hz in Hc. set_solver.
  - erewrite bind_exc by apply Hrm. done.
Qed.

Lemma add_knowledge_run c n s :
  add_knowledge c n s =
  match list_remove c (unclicked s) with
  | Some rest =>
      Ret tt (state_of (check_obvious
                (state_of (make_inferences (with_sentence c n rest s)))))
  | None => Exc ValueError (after_click c s)
  end.
Proof. rewrite add_knowledge_first_pass. apply first_pass_run. Qed.

(** ** The neighbourhood the code builds *)

Lemma elem_of_range lo hi k : k ∈ range lo hi ↔ lo ≤ k < hi.
Proof. unfold range. rewrite elem_of_seqZ. lia. Qed.

(** The rows are bounded by [width] and the columns by [height]. *)
Lemma elem_of_unclicked_neighbors self c x :
  x ∈ unclicked_neighbors self c ↔
  (Z.max 0 (c.1 - 1) ≤ x.1 < Z.min (width self) (c.1 + 2)) ∧
  (Z.max 0 (c.2 - 1) ≤ x.2 < Z.min (height self) (c.2 + 2)) ∧
  x ∉ moves_made self.
Proof.
  unfold unclicked_neighbors. cbn zeta. rewrite list_elem_of_bind. split.
  - intros (i & (j & Hx & Hj)%list_elem_of_bind & Hi).
    apply elem_of_range in Hi, Hj.
    case_decide as Hm; [|by apply elem_of_nil in Hx].
    apply list_elem_of_singleton in Hx as ->. done.
  - intros (Hi & Hj & Hm). destruct x as [i j]; cbn [fst snd] in *.
    exists i. split; [|by apply elem_of_range].
    apply list_elem_of_bind. exists j. split; [|by apply elem_of_range].
    rewrite decide_True by done. by left.
Qed.

Lemma new_sentence_not_moved self c n x :
  x ∈ cells (new_sentence self c n) → x ∉ moves_made self.
Proof.
  unfold new_sentence; cbn [cells]. rewrite elem_of_list_to_set.
  by intros (_ & _ & ?)%elem_of_unclicked_neighbors.
Qed.

(** ** The bookkeeping invariant *)

Lemma tidy_init h w : tidy (init h w).
Proof.
  unfold tidy, init; cbn. split_and!.
  - apply NoDup_bind.
    + intros i1 i2 [a b] _ _ (j1 & ->%list_elem_of_singleton & _)%list_elem_of_bind
        (j2 & [= -> _]%list_elem_of_singleton & _)%list_elem_of_bind. done.
    + intros i _. apply NoDup_bind.
      * intros j1 j2 y _ _ ->%list_elem_of_singleton
          [= ->]%list_elem_of_singleton. done.
      * intros j _. apply NoDup_singleton.
      * apply NoDup_seqZ.
    + apply NoDup_seqZ.
  - set_solver.
  - set_solver.
  - by intros x ?%elem_of_nil.
Qed.

Lemma tidy_later s s' : later s s' → tidy s → tidy s'.
Proof.
  intros (_ & _ & Hm & Hu & _ & Hs & Hk) (Hnd & Hmu & Hms & Hkm).
  unfold tidy. rewrite Hm, Hu. split_and!; try done; [set_solver|].
  intros x' Hx'. destruct (Hk _ Hx') as (x & Hx & Hsub).
  specialize (Hkm _ Hx). set_solver.
Qed.

Lemma tidy_after_click c s :
  c ∉ unclicked s → tidy s → tidy (after_click c s).
Proof.
  intros Hc (Hnd & Hmu & Hms & Hkm). unfold tidy, after_click; cbn.
  split_and!; [done| |set_solver|].
  - intros x [?| ->%elem_of_singleton]%elem_of_union; auto.
  - intros x' (x & -> & Hx)%list_elem_of_fmap.
    rewrite sentence_mark_safe_eq; cbn. specialize (Hkm _ Hx). set_solver.
Qed.

Lemma tidy_with_sentence c n pre post s :
  unclicked s = pre ++ c :: post → tidy s →
  tidy (with_sentence c n (pre ++ post) s).
Proof.
  intros Hu (Hnd & Hmu & Hms & Hkm). unfold tidy, with_sentence; cbn.
  rewrite Hu in Hnd, Hmu.
  apply NoDup_app in Hnd as (Hpre & Hcross & Hpost).
  apply NoDup_cons in Hpost as [Hcpost Hpost].
  split_and!.
  - apply NoDup_app. split_and!; [done| |done].
    intros x Hx Hx'. apply (Hcross x Hx). by right.
  - intros x [Hx| ->%elem_of_singleton]%elem_of_union.
    + intros Hin. apply (Hmu x Hx).
      apply elem_of_app in Hin as [?|?]; apply elem_of_app;
        [by left|right; by right].
    + intros [Hin|Hin]%elem_of_app; [|done].
      apply (Hcross c Hin). by left.
  - set_solver.
  - intros x' [(x & -> & Hx)%list_elem_of_fmap| ->%list_elem_of_singleton]%elem_of_app.
    + rewrite sentence_mark_safe_eq; cbn. specialize (Hkm _ Hx). set_solver.
    + intros y Hy Hy'. by apply new_sentence_not_moved in Hy.
Qed.

Lemma tidy_add_knowledge c n s : tidy s → tidy (state_of (add_knowledge c n s)).
Proof.
  intros Ht. rewrite add_knowledge_run.
  destruct (decide (c ∈ unclicked s)) as [Hc|Hc].
  - destruct (list_remove_elem_of _ _ Hc) as (pre & post & Hu & _ & ->).
    cbn [state_of].
    eapply tidy_later; [apply later_check_obvious|].
    eapply tidy_later; [apply later_make_inferences|].
    by apply tidy_with_sentence.
  - rewrite list_remove_None by done. cbn [state_of].
    by apply tidy_after_click.
Qed.

Lemma make_safe_move_run rnd s : ∃ r, make_safe_move rnd s = Ret r s.
Proof.
  unfold make_safe_move, mbind, M_bind, get. cbn beta iota zeta.
  case_decide; by eexists.
Qed.

Lemma make_random_move_run rnd s :
  make_random_move rnd s =
  Ret (let options := filter (λ x, x ∉ elements (mines s)) (unclicked s) in
       if decide (0 < Z.of_nat (length options))
       then choice rnd options else None) s.
Proof.
  unfold make_random_move, mbind, M_bind, get. cbn beta iota zeta.
  by case_decide.
Qed.

Lemma tidy_step o s : tidy s → tidy (step o s).
Proof.
  intros Ht. destruct o as [c n|c|c| | |rnd|rnd]; cbn [step].
  - by apply tidy_add_knowledge.
  - eapply tidy_later; [apply later_mark_mine|done].
  - eapply tidy_later; [apply later_mark_safe|done].
  - eapply tidy_later; [apply later_make_inferences|done].
  - eapply tidy_later; [apply later_check_obvious|done].
  - destruct (make_safe_move_run rnd s) as [r ->]. done.
  - rewrite make_random_move_run. done.
Qed.

Lemma tidy_run ops s : tidy s → tidy (run ops s).
Proof.
  revert s. induction ops as [|o ops IH]; intros s Ht; [done|].
  cbn. apply IH. by apply tidy_step.
Qed.

(** ** Knowledge that is true of a mine layout *)

Lemma len_set_difference (X Y : gset cell) :
  Y ⊆ X → len_set (X ∖ Y) = len_set X - len_set Y.
Proof.
  intros Hsub. unfold len_set.
  pose proof (size_difference X Y Hsub) as Hd.
  pose proof (subseteq_size Y X Hsub) as Hle.
  rewrite Hd. lia.
Qed.

Lemma len_set_bounds (X L : gset cell) : 0 ≤ len_set (X ∩ L) ≤ len_set X.
Proof.
  unfold len_set.
  assert (X ∩ L ⊆ X) as Hsub by set_solver.
  pose proof (subseteq_size (X ∩ L) X Hsub). lia.
Qed.

Lemma sound_count_ok L s x : sound L s → x ∈ knowledge s → count_ok x.
Proof.
  intros (_ & _ & Hk) Hx. unfold count_ok. rewrite (Hk _ Hx).
  apply len_set_bounds.
Qed.

Lemma sound_disjoint L s : sound L s → mines s ## safes s.
Proof. intros (Hm & Hs & _). set_solver. Qed.

Lemma sound_init L h w : sound L (init h w).
Proof.
  unfold sound, init; cbn. split_and!; [set_solver|set_solver|].
  by intros x ?%elem_of_nil.
Qed.

(** One sentence stays true when safe cells outside the layout and mine
    cells inside it are taken out of it. *)
Lemma marked_true L sc mc x :
  (∀ c, c ∈ sc → c ∉ L) → (∀ c, c ∈ mc → c ∈ L) →
  count x = len_set (cells x ∩ L) →
  count (marked sc mc x) = len_set (cells (marked sc mc x) ∩ L).
Proof.
  intros Hsc Hmc Hx. rewrite marked_eq. cbn [cells count]. rewrite Hx.
  assert ((cells x ∖ list_to_set sc ∖ list_to_set mc) ∩ L =
          (cells x ∩ L) ∖ ((cells x ∖ list_to_set sc) ∩ list_to_set mc)) as ->.
  { apply set_eq. intros z.
    specialize (Hsc z). specialize (Hmc z).
    rewrite !elem_of_difference, !elem_of_intersection, !elem_of_difference,
      !elem_of_list_to_set. tauto. }
  rewrite len_set_difference; [done|].
  intros z. specialize (Hmc z).
  rewrite !elem_of_intersection, !elem_of_difference, !elem_of_list_to_set.
  tauto.
Qed.

Lemma sound_mark_safe L c s :
  c ∉ L → sound L s → sound L (state_of (mark_safe c s)).
Proof.
  intros Hc (Hm & Hs & Hk). rewrite mark_safe_run. unfold sound; cbn.
  split_and!; [done|set_solver|].
  intros x' (x & -> & Hx)%list_elem_of_fmap.
  change (Sentence.mark_safe c x) with (marked [c] [] x).
  apply marked_true; [|by intros ? ?%elem_of_nil|by apply Hk].
  by intros ? ->%list_elem_of_singleton.
Qed.

Lemma sound_mark_mine L c s :
  c ∈ L → sound L s → sound L (state_of (mark_mine c s)).
Proof.
  intros Hc (Hm & Hs & Hk). rewrite mark_mine_run. unfold sound; cbn.
  split_and!; [set_solver|done|].
  intros x' (x & -> & Hx)%list_elem_of_fmap.
  change (Sentence.mark_mine c x) with (marked [] [c] x).
  apply marked_true; [by intros ? ?%elem_of_nil| |by apply Hk].
  by intros ? ->%list_elem_of_singleton.
Qed.

Lemma sound_make_inferences L s :
  sound L s → sound L (state_of (make_inferences s)).
Proof.
  intros (Hm & Hs & Hk). rewrite make_inferences_run. unfold sound; cbn.
  split_and!; [done|done|].
  destruct (foldl_add_new (new_knowledge (knowledge s)) (knowledge s))
    as (added & -> & _ & Hadd & _).
  intros x [Hx|Hx]%elem_of_app; [by apply Hk|].
  apply Hadd in Hx as [(A & B & HA & HB & [Hsub _] & ->)%elem_of_new_knowledge _].
  cbn [cells count]. rewrite (Hk _ HA), (Hk _ HB).
  assert ((cells B ∖ cells A) ∩ L = (cells B ∩ L) ∖ (cells A ∩ L)) as ->
    by set_solver.
  rewrite len_set_difference; [done|set_solver].
Qed.

Lemma sound_check_obvious L s :
  sound L s → sound L (state_of (check_obvious s)).
Proof.
  intros (Hm & Hs & Hk).
  destruct (check_obvious_run s) as (sc & mc & Hscan & ->).
  destruct (scan_spec _ _ _ _ Hscan) as (_ & Hsc & Hmc).
  assert (∀ c, c ∈ sc → c ∉ L) as HscL.
  { intros c (x & Hx & _ & H0 & Hc)%Hsc HcL.
    rewrite (Hk _ Hx) in H0. apply len_set_zero in H0. set_solver. }
  assert (∀ c, c ∈ mc → c ∈ L) as HmcL.
  { intros c (x & Hx & _ & Hfull & Hc)%Hmc.
    rewrite (Hk _ Hx) in Hfull. unfold len_set in Hfull.
    assert (cells x ∩ L ⊆ cells x) as Hsub by set_solver.
    pose proof (set_subseteq_size_eq (cells x ∩ L) (cells x) Hsub) as Heq.
    rewrite <- Heq in Hc by lia. set_solver. }
  unfold sound; cbn. split_and!.
  - intros c [?|?%elem_of_list_to_set]%elem_of_union; auto.
  - intros c [?|?%elem_of_list_to_set]%elem_of_union HcL; [set_solver|].
    by apply (HscL c).
  - intros x' (x & -> & [_ Hx]%list_elem_of_filter)%list_elem_of_fmap.
    apply marked_true; auto.
Qed.

Lemma sound_add_knowledge L c n s :
  agrees L s (AddKnowledge c n) = true →
  sound L s → sound L (state_of (add_knowledge c n s)).
Proof.
  intros [Hc Hn]%andb_prop Hsound.
  apply bool_decide_eq_true in Hc, Hn.
  assert (sound L (after_click c s)) as H1.
  { pose proof (sound_mark_safe L c s Hc Hsound) as (Hm & Hs & Hk).
    rewrite mark_safe_run in Hm, Hs, Hk. by split_and!. }
  rewrite add_knowledge_run.
  destruct (list_remove c (unclicked s)) as [rest|]; cbn [state_of]; [|done].
  apply sound_check_obvious, sound_make_inferences.
  destruct H1 as (Hm & Hs & Hk). unfold sound, with_sentence; cbn.
  split_and!; [done|done|].
  intros x [Hx| ->%list_elem_of_singleton]%elem_of_app; [by apply Hk|].
  exact Hn.
Qed.

Lemma sound_step L o s :
  agrees L s o = true → sound L s → sound L (step o s).
Proof.
  intros Ha Hs. destruct o as [c n|c|c| | |rnd|rnd]; cbn [step].
  - by apply sound_add_knowledge.
  - apply sound_mark_mine; [|done]. by apply bool_decide_eq_true in Ha.
  - apply sound_mark_safe; [|done]. by apply bool_decide_eq_true in Ha.
  - by apply sound_make_inferences.
  - by apply sound_check_obvious.
  - destruct (make_safe_move_run rnd s) as [r ->]. done.
  - rewrite make_random_move_run. done.
Qed.

Lemma sound_run L ops s :
  agrees_run L ops s = true → sound L s → sound L (run ops s).
Proof.
  revert s. induction ops as [|o ops IH]; intros s Ha Hs; [done|].
  cbn in Ha. apply andb_prop in Ha as [Ho Hops].
  cbn. apply IH; [done|]. by apply sound_step.
Qed.

(** * The claims *)

(** ** C1: the purge invariant *)

(** C1, as stated, fails: on a 3 by 3 grid, after observing (0,0) with
    count 0 and then (0,1) with count 1, the live sentence still holds
    (1,0) and (1,1), which are confirmed safe cells. *)
Lemma C1_counterexample :
  ¬ purged (run [AddKnowledge (0,0) 0; AddKnowledge (0,1) 1] (init 3 3)).
Proof.
  intros Hp.
  destruct (Hp (mkSentence {[(0,2); (1,0); (1,1); (1,2)]} 1) (1,0))
    as (_ & Hsafe & _).
  - vm_compute. left.
  - vm_compute. set_solver.
  - apply Hsafe. apply (bool_decide_unpack _). by vm_compute.
Qed.

(** C1, amended: in every state the engine reaches from a fresh one by
    its public methods, no cell of a live sentence is in [moves_made],
    and the sentence [add_knowledge] builds for a cell holds neither a
    move made nor that cell; confirmed mines and safe cells are purged
    only from the sentences alive when they are marked. *)
Theorem C1_purged_of_moves_made h w ops :
  let s := run ops (init h w) in
  (∀ x c, x ∈ knowledge s → c ∈ cells x → c ∉ moves_made s) ∧
  (∀ c n x, x ∈ cells (new_sentence (after_click c s) c n) →
            x ∉ moves_made s ∧ x ≠ c) ∧
  (∀ c x, x ∈ knowledge (state_of (mark_mine c s)) ∨
          x ∈ knowledge (state_of (mark_safe c s)) → c ∉ cells x).
Proof.
  cbn zeta. pose proof (tidy_run ops _ (tidy_init h w)) as (_ & _ & _ & Hk).
  split_and!.
  - intros x c Hx Hc Hm. by apply (Hk x Hx c).
  - intros c n x Hx%new_sentence_not_moved. cbn in Hx. set_solver.
  - intros c x [Hx|Hx].
    + rewrite mark_mine_run in Hx. cbn in Hx.
      apply list_elem_of_fmap in Hx as (y & -> & _).
      rewrite sentence_mark_mine_eq. cbn. set_solver.
    + rewrite mark_safe_run in Hx. cbn in Hx.
      apply list_elem_of_fmap in Hx as (y & -> & _).
      rewrite sentence_mark_safe_eq. cbn. set_solver.
Qed.

(** C1, amended, on a 3 by 3 grid after observing (0,0) with count 1. *)
Lemma C1_purged_of_moves_made_witness :
  (0,1) ∉ moves_made (run [AddKnowledge (0,0) 1] (init 3 3)).
Proof.
  refine (proj1 (C1_purged_of_moves_made 3 3 [AddKnowledge (0,0) 1])
            (mkSentence {[(0,1); (1,0); (1,1)]} 1) (0,1) _ _).
  - vm_compute. left.
  - vm_compute. set_solver.
Defined.

(** ** C9: observing a cell twice *)

(** C9: in every state the engine reaches from a fresh one, observing a
    cell that is already in [moves_made] raises ([list.remove] finds no
    such cell in [unclicked]), and the state is left as it was. *)
Theorem C9_duplicate_observation_raises h w ops c n :
  c ∈ moves_made (run ops (init h w)) →
  add_knowledge c n (run ops (init h w)) = Exc ValueError (run ops (init h w)).
Proof.
  intros Hc. pose proof (tidy_run ops _ (tidy_init h w)) as (_ & Hmu & Hms & Hk).
  generalize dependent (run ops (init h w)). intros s Hc Hmu Hms Hk.
  rewrite add_knowledge_run, list_remove_None by by apply Hmu.
  f_equal. unfold after_click. destruct s as [hh ww mm mi sa un K]; cbn in *.
  f_equal; [set_solver|set_solver|].
  rewrite <- (list_fmap_id K) at 2. apply list_fmap_ext.
  intros i x Hx. rewrite sentence_mark_safe_eq.
  assert (x ∈ K) as HxK by (by eapply list_elem_of_lookup_2).
  specialize (Hk x HxK). destruct x as [X k]; cbn in *. f_equal. set_solver.
Qed.

(** C9 on a 3 by 3 grid: (0,0) observed, then observed again. *)
Lemma C9_duplicate_observation_raises_witness :
  (0,0) ∈ moves_made (run [AddKnowledge (0,0) 1] (init 3 3)) ∧
  add_knowledge (0,0) 1 (run [AddKnowledge (0,0) 1] (init 3 3)) =
  Exc ValueError (run [AddKnowledge (0,0) 1] (init 3 3)).
Proof.
  assert ((0,0) ∈ moves_made (run [AddKnowledge (0,0) 1] (init 3 3))) as H.
  { apply (bool_decide_unpack _). by vm_compute. }
  split; [exact H|].
  exact (C9_duplicate_observation_raises 3 3 [AddKnowledge (0,0) 1] (0,0) 1 H).
Defined.

(** ** C8: [make_random_move] *)

Lemma choice_Some {A} (rnd : nat) (l : list A) :
  l ≠ [] → ∃ x, choice rnd l = Some x ∧ x ∈ l.
Proof.
  intros Hl. unfold choice.
  assert (rnd mod length l < length l)%nat as Hlt.
  { apply Nat.mod_upper_bound. by destruct l. }
  destruct (lookup_lt_is_Some_2 l _ Hlt) as [x Hx].
  exists x. split; [done|]. by eapply list_elem_of_lookup_2.
Qed.

Lemma choice_any {A} (l : list A) x : x ∈ l → ∃ rnd, choice rnd l = Some x.
Proof.
  intros (i & Hi)%list_elem_of_lookup_1. exists i. unfold choice.
  rewrite Nat.mod_small; [done|]. by eapply lookup_lt_Some.
Qed.

(** C8: in every state the engine reaches from a fresh one,
    [make_random_move] returns, leaves the state as it is, answers [None]
    exactly when every unclicked cell is a confirmed mine, and otherwise
    answers an unclicked cell that is neither a confirmed mine nor a move
    made; every such cell is the answer for some draw. *)
Theorem C8_make_random_move h w ops rnd :
  let s := run ops (init h w) in
  ∃ r, make_random_move rnd s = Ret r s ∧
       (r = None ↔ ∀ c, c ∈ unclicked s → c ∈ mines s) ∧
       (∀ c, r = Some c →
             c ∈ unclicked s ∧ c ∉ mines s ∧ c ∉ moves_made s) ∧
       (∀ c, c ∈ unclicked s → c ∉ mines s →
             ∃ rnd', make_random_move rnd' s = Ret (Some c) s).
Proof.
  cbn zeta. pose proof (tidy_run ops _ (tidy_init h w)) as (_ & Hmu & _ & _).
  generalize dependent (run ops (init h w)). intros s Hmu.
  eexists. split; [apply make_random_move_run|]. cbn zeta.
  set (options := filter (λ x, x ∉ elements (mines s)) (unclicked s)).
  assert (∀ c, c ∈ options ↔ c ∈ unclicked s ∧ c ∉ mines s) as Hopt.
  { intros c. unfold options. rewrite list_elem_of_filter, elem_of_elements.
    tauto. }
  split_and!.
  - case_decide as Hlen.
    + destruct (choice_Some rnd options) as (x & -> & Hx).
      { intros Hnil. rewrite Hnil in Hlen. cbn in Hlen. lia. }
      split; [done|]. intros Hall. apply Hopt in Hx as [Hu Hm].
      destruct Hm. by apply Hall.
    + split; [|done]. intros _ c Hu.
      destruct (decide (c ∈ mines s)) as [|Hm]; [done|].
      assert (c ∈ options) as Hc by (by apply Hopt).
      destruct options; [by apply elem_of_nil in Hc|]. cbn in Hlen. lia.
  - intros c Hr. case_decide as Hlen; [|done].
    destruct (choice_Some rnd options) as (x & Hx & Hin).
    { intros Hnil. rewrite Hnil in Hlen. cbn in Hlen. lia. }
    rewrite Hx in Hr. injection Hr as ->.
    apply Hopt in Hin as [Hu Hm]. split_and!; [done|done|].
    intros Hmm. by apply (Hmu c).
  - intros c Hu Hm. assert (c ∈ options) as Hc by (by apply Hopt).
    destruct (choice_any _ _ Hc) as [rnd' Hrnd]. exists rnd'.
    rewrite make_random_move_run. cbn zeta. fold options.
    rewrite decide_True; [by rewrite Hrnd|].
    destruct options; [by apply elem_of_nil in Hc|]. cbn. lia.
Qed.

(** ** C10: marking is total *)

(** C10: for every state and every pair of integers as the cell, inside
    the grid or not, [mark_mine] and [mark_safe] return: the cell joins
    [mines] (or [safes]), every sentence gets the sentence-level update,
    which changes nothing in a sentence that does not hold the cell, and
    nothing else of the state changes. *)
Theorem C10_marking_is_total s c :
  (∃ s', mark_mine c s = Ret tt s' ∧
         mines s' = mines s ∪ {[c]} ∧
         knowledge s' = Sentence.mark_mine c <$> knowledge s ∧
         safes s' = safes s ∧ moves_made s' = moves_made s ∧
         unclicked s' = unclicked s ∧
         height s' = height s ∧ width s' = width s) ∧
  (∃ s', mark_safe c s = Ret tt s' ∧
         safes s' = safes s ∪ {[c]} ∧
         knowledge s' = Sentence.mark_safe c <$> knowledge s ∧
         mines s' = mines s ∧ moves_made s' = moves_made s ∧
         unclicked s' = unclicked s ∧
         height s' = height s ∧ width s' = width s) ∧
  (∀ x, c ∉ cells x →
        Sentence.mark_mine c x = x ∧ Sentence.mark_safe c x = x) ∧
  (∀ x, c ∈ cells x →
        Sentence.mark_mine c x = mkSentence (cells x ∖ {[c]}) (count x - 1) ∧
        Sentence.mark_safe c x = mkSentence (cells x ∖ {[c]}) (count x)).
Proof.
  split_and!.
  - eexists. split; [apply mark_mine_run|]. by cbn.
  - eexists. split; [apply mark_safe_run|]. by cbn.
  - intros x Hc. unfold Sentence.mark_mine, Sentence.mark_safe.
    by rewrite !decide_False.
  - intros x Hc. unfold Sentence.mark_mine, Sentence.mark_safe.
    by rewrite !decide_True.
Qed.

(** ** C3: subset propagation *)

Lemma make_inferences_knowledge s :
  ∃ added,
    make_inferences s = Ret tt (set_knowledge (λ K, K ++ added) s) ∧
    NoDup added ∧
    (∀ x, x ∈ added → x ∈ new_knowledge (knowledge s) ∧ x ∉ knowledge s) ∧
    (∀ x, x ∈ new_knowledge (knowledge s) → x ∈ knowledge s ++ added).
Proof.
  destruct (foldl_add_new (new_knowledge (knowledge s)) (knowledge s))
    as (added & Heq & Hnd & Hadd & Hnew).
  exists added. split_and!; try done.
  rewrite make_inferences_run. unfold set_knowledge. by rewrite Heq.
Qed.

(** C3: for two live sentences [A], [B] with [A.cells] a strict subset of
    [B.cells], [make_inferences] returns with the old knowledge followed
    by new sentences, none of them twice and none equal to an old one,
    and the sentence (B.cells - A.cells, B.count - A.count) is among the
    old or the new ones.  With knowledge A = {(0,0),(0,1)} = 1 and
    B = {(0,0),(0,1),(0,2)} = 1 the one new sentence is {(0,2)} = 0, whose
    [known_safes] is {(0,2)}, and the sweep that follows puts (0,2) in
    [safes]. *)
Theorem C3_subset_propagation :
  (∀ s A B, A ∈ knowledge s → B ∈ knowledge s → cells A ⊂ cells B →
     ∃ added,
       make_inferences s = Ret tt (set_knowledge (λ K, K ++ added) s) ∧
       NoDup added ∧ (∀ x, x ∈ added → x ∉ knowledge s) ∧
       mkSentence (cells B ∖ cells A) (count B - count A)
         ∈ knowledge s ++ added) ∧
  (∀ s, knowledge s = [mkSentence {[(0,0); (0,1)]} 1;
                       mkSentence {[(0,0); (0,1); (0,2)]} 1] →
     make_inferences s =
       Ret tt (set_knowledge (λ K, K ++ [mkSentence {[(0,2)]} 0]) s) ∧
     Sentence.known_safes (mkSentence {[(0,2)]} 0) = Some {[(0,2)]} ∧
     (0,2) ∈ safes (state_of (check_obvious (state_of (make_inferences s))))).
Proof.
  split.
  - intros s A B HA HB Hsub.
    destruct (make_inferences_knowledge s) as (added & Hrun & Hnd & Hadd & Hnew).
    exists added. split_and!; try done.
    + intros x Hx. by apply Hadd.
    + apply Hnew, elem_of_new_knowledge. by exists A, B.
  - intros s HK.
    assert (make_inferences s =
            Ret tt (set_knowledge (λ K, K ++ [mkSentence {[(0,2)]} 0]) s)) as Hrun.
    { rewrite make_inferences_run. unfold set_knowledge. rewrite HK.
      assert (foldl add_new
                (mkSentence {[(0,0); (0,1)]} 1 :: mkSentence {[(0,0); (0,1); (0,2)]} 1 :: [])
                (new_knowledge
                   (mkSentence {[(0,0); (0,1)]} 1 :: mkSentence {[(0,0); (0,1); (0,2)]} 1 :: [])) =
              (mkSentence {[(0,0); (0,1)]} 1 :: mkSentence {[(0,0); (0,1); (0,2)]} 1 :: [])
                ++ [mkSentence {[(0,2)]} 0]) as ->
        by (vm_compute; reflexivity).
      done. }
    split_and!; [done|done|].
    rewrite Hrun. cbn [state_of].
    destruct (check_obvious_run
                (set_knowledge (λ K, K ++ [mkSentence {[(0,2)]} 0]) s))
      as (sc & mc & Hscan & ->).
    destruct (scan_spec _ _ _ _ Hscan) as (_ & Hsc & _).
    cbn [state_of safes set_knowledge]. apply elem_of_union. right.
    apply elem_of_list_to_set, Hsc.
    exists (mkSentence {[(0,2)]} 0). cbn [knowledge set_knowledge cells count].
    split_and!; [|set_solver|done|set_solver].
    apply elem_of_app. right. left.
Qed.

(** ** C4: the neighbourhood of an observed cell *)

(** What the comprehension of [add_knowledge] collects: the cells within
    one step of the observed one whose row is below [width] and whose
    column is below [height], moves made apart. *)
Lemma new_sentence_cells self c n x :
  x ∈ cells (new_sentence self c n) ↔
  Z.abs (x.1 - c.1) ≤ 1 ∧ Z.abs (x.2 - c.2) ≤ 1 ∧
  (0 ≤ x.1 < width self) ∧ (0 ≤ x.2 < height self) ∧ x ∉ moves_made self.
Proof.
  unfold new_sentence; cbn [cells].
  rewrite elem_of_list_to_set, elem_of_unclicked_neighbors.
  destruct x as [i j], c as [ci cj]; cbn [fst snd].
  split.
  - intros (Hi & Hj & Hm). split_and!; [lia..|done].
  - intros (Hi & Hj & Hw & Hh & Hm). split_and!; [lia..|done].
Qed.

(** On a square grid that is the neighbourhood of the specification. *)
Lemma new_sentence_square self c n x :
  height self = width self → c ∈ moves_made self →
  x ∈ cells (new_sentence self c n) ↔
  spec_neighbor (height self) (width self) (moves_made self) c x.
Proof.
  intros Hsq Hc. rewrite new_sentence_cells. unfold spec_neighbor.
  rewrite Hsq. split.
  - intros (H1 & H2 & H3 & H4 & Hm).
    split; [exact H1|]. split; [exact H2|]. split; [exact H3|].
    split; [exact H4|]. split; [|exact Hm].
    intros Heq. apply Hm. by rewrite Heq.
  - intros (H1 & H2 & H3 & H4 & _ & Hm).
    split; [exact H1|]. split; [exact H2|]. split; [exact H3|].
    split; [exact H4|exact Hm].
Qed.

(** C4 fails on the code for a grid that is not square: [add_knowledge]
    bounds the row by [width] and the column by [height].  On a grid of
    height 1 and width 3, observing (0,0) with count 0 builds the sentence
    over (1,0), a cell outside the grid, where the claim has (0,1); the
    call then confirms (1,0) as safe and leaves (0,1) unknown. *)
Theorem C4_bounds_swapped_on_1_by_3 :
  let self := after_click (0,0) (init 1 3) in
  cells (new_sentence self (0,0) 0) = {[(1,0)]} ∧
  ¬ spec_neighbor 1 3 (moves_made self) (0,0) (1,0) ∧
  spec_neighbor 1 3 (moves_made self) (0,0) (0,1) ∧
  add_knowledge (0,0) 0 (init 1 3) =
    Ret tt (state_of (add_knowledge (0,0) 0 (init 1 3))) ∧
  (1,0) ∈ safes (state_of (add_knowledge (0,0) 0 (init 1 3))) ∧
  (0,1) ∉ safes (state_of (add_knowledge (0,0) 0 (init 1 3))).
Proof.
  cbn zeta. split_and!.
  - vm_compute. reflexivity.
  - intros (_ & _ & Hrow & _). cbn in Hrow. lia.
  - unfold spec_neighbor. cbn [fst snd]. split_and!; try lia; [done|].
    apply (bool_decide_unpack _). by vm_compute.
  - vm_compute. reflexivity.
  - apply (bool_decide_unpack _). by vm_compute.
  - apply (bool_decide_unpack _). by vm_compute.
Qed.

(** ** C5: the retry of [add_knowledge] *)

(** C5 fails on the code: the retry is guarded by [len(self.safes) == 0],
    which never holds, so [add_knowledge] is its first pass.  On a 2 by 2
    grid, observing (0,0) with count 3 leaves no safe cell to move to
    after the first pass; the code stops there, with the emptied sentence
    still in [knowledge], where a second pass would have removed it. *)
Theorem C5_retry_never_runs_on_2_by_2 :
  let s := init 2 2 in
  add_knowledge (0,0) 3 s = first_pass (0,0) 3 s ∧
  safes (state_of (first_pass (0,0) 3 s)) ∖
    moves_made (state_of (first_pass (0,0) 3 s)) = ∅ ∧
  knowledge (state_of (add_knowledge (0,0) 3 s)) = [mkSentence ∅ 0] ∧
  knowledge (state_of (spec_observe (0,0) 3 s)) = [].
Proof.
  cbn zeta. split_and!.
  - apply add_knowledge_first_pass.
  - vm_compute. reflexivity.
  - vm_compute. reflexivity.
  - vm_compute. reflexivity.
Qed.

(** ** C6: a sentence all of whose cells are mines *)

(** C6, as stated, fails: with the one sentence {(1,1)} = 1 in knowledge,
    one sweep confirms (1,1) as a mine and empties the sentence, but the
    emptied sentence is still in [knowledge] after the sweep. *)
Lemma C6_counterexample :
  let s := set_knowledge (λ _, [mkSentence {[(1,1)]} 1]) (init 3 3) in
  check_obvious s = Ret tt (state_of (check_obvious s)) ∧
  (1,1) ∈ mines (state_of (check_obvious s)) ∧
  knowledge (state_of (check_obvious s)) = [mkSentence ∅ 0] ∧
  knowledge (state_of (check_obvious s)) ≠ [].
Proof.
  cbn zeta. split_and!.
  - apply check_obvious_returns.
  - apply (bool_decide_unpack _). by vm_compute.
  - vm_compute. reflexivity.
  - assert (knowledge (state_of (check_obvious
              (set_knowledge (λ _, [mkSentence {[(1,1)]} 1]) (init 3 3)))) =
            [mkSentence ∅ 0]) as -> by (vm_compute; reflexivity).
    done.
Qed.

(** C6, amended: when knowledge holds a non-empty sentence whose count is
    the number of its cells, one sweep returns, every cell of the sentence
    is in [mines] afterwards, and the sentence is emptied but not removed:
    knowledge afterwards is the sentences that were non-empty before the
    sweep, in their order, each with the collected cells marked, and the
    marked sentence has no cell left. *)
Theorem C6_all_mines_sentence_emptied s x :
  x ∈ knowledge s → count x = len_set (cells x) → 0 < len_set (cells x) →
  ∃ sc mc,
    check_obvious s = Ret tt (state_of (check_obvious s)) ∧
    cells x ⊆ mines (state_of (check_obvious s)) ∧
    knowledge (state_of (check_obvious s)) =
      marked sc mc <$>
        filter (λ y, len_set (Sentence.show_cells y) ≠ 0) (knowledge s) ∧
    x ∈ filter (λ y, len_set (Sentence.show_cells y) ≠ 0) (knowledge s) ∧
    marked sc mc x ∈ knowledge (state_of (check_obvious s)) ∧
    cells (marked sc mc x) = ∅.
Proof.
  intros Hx Hfull Hpos.
  destruct (check_obvious_run s) as (sc & mc & Hscan & Hrun).
  destruct (scan_spec _ _ _ _ Hscan) as (_ & _ & Hmc).
  assert (cells x ≠ ∅) as Hne.
  { intros He%len_set_zero. lia. }
  assert (cells x ⊆ list_to_set mc) as Hsub.
  { intros c Hc. apply elem_of_list_to_set, Hmc. by exists x. }
  assert (x ∈ filter (λ y, len_set (Sentence.show_cells y) ≠ 0) (knowledge s))
    as Hkeep.
  { apply list_elem_of_filter. split; [|done].
    unfold Sentence.show_cells. lia. }
  exists sc, mc. rewrite Hrun. cbn [state_of mines knowledge].
  split_and!; try done.
  - set_solver.
  - by apply list_elem_of_fmap_2.
  - rewrite marked_eq. cbn [cells]. set_solver.
Qed.

(** C6, amended, on the sentence {(1,1)} = 1. *)
Lemma C6_all_mines_sentence_emptied_witness :
  ∃ sc mc,
    cells (mkSentence {[(1,1)]} 1) ⊆
      mines (state_of (check_obvious
        (set_knowledge (λ _, [mkSentence {[(1,1)]} 1]) (init 3 3)))) ∧
    cells (marked sc mc (mkSentence {[(1,1)]} 1)) = ∅.
Proof.
  destruct (C6_all_mines_sentence_emptied
              (set_knowledge (λ _, [mkSentence {[(1,1)]} 1]) (init 3 3))
              (mkSentence {[(1,1)]} 1))
    as (sc & mc & _ & Hm & _ & _ & _ & He).
  - left.
  - vm_compute. reflexivity.
  - vm_compute. reflexivity.
  - by exists sc, mc.
Defined.


(** * Further properties of the engine *)

(** ** The grid and the unclicked list *)

Lemma elem_of_init_unclicked h w c :
  c ∈ unclicked (init h w) ↔ in_grid h w c.
Proof.
  unfold init, in_grid; cbn [unclicked]. rewrite list_elem_of_bind. split.
  - intros (i & (j & ->%list_elem_of_singleton & Hj)%list_elem_of_bind & Hi).
    apply elem_of_range in Hi, Hj. cbn [fst snd]. lia.
  - intros [Hi Hj]. destruct c as [i j]; cbn [fst snd] in *.
    exists i. split; [|apply elem_of_range; lia].
    apply list_elem_of_bind. exists j. split; [by left|].
    apply elem_of_range; lia.
Qed.

Lemma length_bind_const {A B} (f : A → list B) (k : nat) (l : list A) :
  (∀ x, length (f x) = k) → length (l ≫= f) = (length l * k)%nat.
Proof.
  intros Hf. induction l as [|x l IH]; [done|].
  rewrite bind_cons, length_app, Hf, IH. cbn. lia.
Qed.

(** X1: a fresh engine of height [h] and width [w] knows nothing, and its
    unclicked list holds every cell (i, j) with 0 <= i < h and 0 <= j < w
    once and no other cell, so max(h,0) * max(w,0) cells; a height or
    width that is not positive gives an empty list. *)
Theorem X1_fresh_engine h w :
  (∀ c, c ∈ unclicked (init h w) ↔ in_grid h w c) ∧
  NoDup (unclicked (init h w)) ∧
  length (unclicked (init h w)) = (Z.to_nat h * Z.to_nat w)%nat ∧
  moves_made (init h w) = ∅ ∧ mines (init h w) = ∅ ∧ safes (init h w) = ∅ ∧
  knowledge (init h w) = [].
Proof.
  split_and!; try done.
  - apply elem_of_init_unclicked.
  - apply (tidy_init h w).
  - unfold init; cbn [unclicked].
    rewrite (length_bind_const _ (Z.to_nat w)).
    + unfold range. rewrite length_seqZ. f_equal. lia.
    + intros i. rewrite (length_bind_const _ 1%nat) by done.
      unfold range. rewrite length_seqZ. lia.
Qed.

(** The height and width never change. *)
Lemma step_grid o s :
  height (step o s) = height s ∧ width (step o s) = width s.
Proof.
  assert (∀ s', later s s' → height s' = height s ∧ width s' = width s) as Hl.
  { by intros s' (? & ? & _). }
  destruct o as [c n|c|c| | |rnd|rnd]; cbn [step].
  - rewrite add_knowledge_run.
    destruct (list_remove c (unclicked s)) as [rest|]; cbn [state_of]; [|done].
    pose proof (later_trans _ _ _
      (later_make_inferences (with_sentence c n rest s))
      (later_check_obvious _)) as (-> & -> & _). done.
  - apply Hl, later_mark_mine.
  - apply Hl, later_mark_safe.
  - apply Hl, later_make_inferences.
  - apply Hl, later_check_obvious.
  - destruct (make_safe_move_run rnd s) as [r ->]. done.
  - rewrite make_random_move_run. done.
Qed.

(** What a call does to [moves_made] and [unclicked]: only
    [add_knowledge] touches them. *)
Lemma step_moves o s :
  match o with
  | AddKnowledge c n =>
      moves_made (step o s) = moves_made s ∪ {[c]} ∧
      match list_remove c (unclicked s) with
      | Some rest => unclicked (step o s) = rest
      | None => unclicked (step o s) = unclicked s
      end
  | _ => moves_made (step o s) = moves_made s ∧
         unclicked (step o s) = unclicked s
  end.
Proof.
  assert (∀ s', later s s' →
            moves_made s' = moves_made s ∧ unclicked s' = unclicked s) as Hl.
  { by intros s' (_ & _ & ? & ? & _). }
  destruct o as [c n|c|c| | |rnd|rnd]; cbn [step].
  - rewrite add_knowledge_run.
    destruct (list_remove c (unclicked s)) as [rest|]; cbn [state_of]; [|done].
    pose proof (later_trans _ _ _
      (later_make_inferences (with_sentence c n rest s))
      (later_check_obvious _)) as (_ & _ & -> & -> & _). done.
  - apply Hl, later_mark_mine.
  - apply Hl, later_mark_safe.
  - apply Hl, later_make_inferences.
  - apply Hl, later_check_obvious.
  - destruct (make_safe_move_run rnd s) as [r ->]. done.
  - rewrite make_random_move_run. done.
Qed.

Lemma run_snoc ops o s : run (ops ++ [o]) s = step o (run ops s).
Proof. unfold run. by rewrite foldl_app. Qed.

Lemma run_grid ops s :
  height (run ops s) = height s ∧ width (run ops s) = width s.
Proof.
  revert s. induction ops as [|o ops IH]; intros s; [done|].
  change (run (o :: ops) s) with (run ops (step o s)).
  destruct (IH (step o s)) as [-> ->]. apply step_grid.
Qed.

Lemma unclicked_complement_step o s :
  tidy s →
  (∀ c, c ∈ unclicked s ↔ in_grid (height s) (width s) c ∧ c ∉ moves_made s) →
  ∀ c, c ∈ unclicked (step o s) ↔
       in_grid (height s) (width s) c ∧ c ∉ moves_made (step o s).
Proof.
  intros (Hnd & Hmu & _ & _) Hinv x.
  pose proof (step_moves o s) as Hm.
  destruct o as [c n|c|c| | |rnd|rnd];
    try (destruct Hm as [-> ->]; apply Hinv).
  destruct Hm as [-> Hu].
  destruct (decide (c ∈ unclicked s)) as [Hc|Hc].
  - destruct (list_remove_elem_of _ _ Hc) as (pre & post & Heq & Hpre & Hrm).
    rewrite Hrm in Hu. rewrite Hu.
    rewrite Heq in Hnd. apply NoDup_app in Hnd as (_ & Hcross & Hpost).
    apply NoDup_cons in Hpost as [Hcpost _].
    assert (x ∈ pre ++ post ↔ x ∈ unclicked s ∧ x ≠ c) as ->.
    { rewrite Heq, !elem_of_app, elem_of_cons. split.
      - intros [Hx|Hx]; (split; [tauto|]); intros ->; [done|done].
      - intros [[?|[?|?]] ?]; tauto. }
    rewrite Hinv, not_elem_of_union, not_elem_of_singleton. tauto.
  - rewrite list_remove_None in Hu by done. rewrite Hu, Hinv.
    rewrite not_elem_of_union, not_elem_of_singleton.
    split; [|tauto]. intros [Hg Hnm]. split_and!; try done.
    intros ->. apply Hc, Hinv. done.
Qed.

Lemma unclicked_run h w ops :
  ∀ c, c ∈ unclicked (run ops (init h w)) ↔
       in_grid h w c ∧ c ∉ moves_made (run ops (init h w)).
Proof.
  induction ops as [|o ops IH] using rev_ind.
  - intros c. cbn [run foldl]. rewrite elem_of_init_unclicked.
    cbn [init moves_made]. set_solver.
  - intros c. rewrite run_snoc.
    pose proof (run_grid ops (init h w)) as [Hh Hw]. cbn [init height width] in Hh, Hw.
    pose proof (unclicked_complement_step o (run ops (init h w))
                  (tidy_run ops _ (tidy_init h w))) as Hstep.
    rewrite Hh, Hw in Hstep. by apply Hstep.
Qed.

(** X2: in every state the engine reaches from a fresh one, the unclicked
    list is duplicate-free and holds exactly the cells of the grid that
    are not in [moves_made]. *)
Theorem X2_unclicked_is_grid_minus_moves h w ops :
  NoDup (unclicked (run ops (init h w))) ∧
  ∀ c, c ∈ unclicked (run ops (init h w)) ↔
       in_grid h w c ∧ c ∉ moves_made (run ops (init h w)).
Proof.
  split; [apply (tidy_run ops _ (tidy_init h w))|apply unclicked_run].
Qed.

(** ** The outcome of [add_knowledge] *)

Lemma add_knowledge_returns c n s :
  c ∈ unclicked s →
  ∃ pre post s',
    unclicked s = pre ++ c :: post ∧ c ∉ pre ∧
    add_knowledge c n s = Ret tt s' ∧
    later (with_sentence c n (pre ++ post) s) s'.
Proof.
  intros Hc. destruct (list_remove_elem_of _ _ Hc) as (pre & post & Heq & Hpre & Hrm).
  exists pre, post. eexists. split_and!; [done|done| |].
  - rewrite add_knowledge_run, Hrm. reflexivity.
  - eapply later_trans; [apply later_make_inferences|apply later_check_obvious].
Qed.

Lemma add_knowledge_raises c n s :
  c ∉ unclicked s → add_knowledge c n s = Exc ValueError (after_click c s).
Proof. intros Hc. by rewrite add_knowledge_run, list_remove_None. Qed.

(** X3: in every state the engine reaches from a fresh one,
    [add_knowledge] on a cell of the grid that is not in [moves_made]
    returns, and afterwards the cell is in [moves_made] and in [safes]
    and is gone from the unclicked list, which is one cell shorter.  On
    any other cell (outside the grid, or already moved) it raises
    [ValueError] from [self.unclicked.remove]; it has by then added the
    cell to [moves_made] and [safes] and taken it out of every sentence,
    and it has built no sentence. *)
Theorem X3_add_knowledge_outcome h w ops c n :
  let s := run ops (init h w) in
  (in_grid h w c ∧ c ∉ moves_made s →
     ∃ s', add_knowledge c n s = Ret tt s' ∧
           c ∈ moves_made s' ∧ c ∈ safes s' ∧ c ∉ unclicked s' ∧
           S (length (unclicked s')) = length (unclicked s)) ∧
  (¬ (in_grid h w c ∧ c ∉ moves_made s) →
     add_knowledge c n s = Exc ValueError (after_click c s) ∧
     moves_made (after_click c s) = moves_made s ∪ {[c]} ∧
     safes (after_click c s) = safes s ∪ {[c]} ∧
     unclicked (after_click c s) = unclicked s ∧
     knowledge (after_click c s) = Sentence.mark_safe c <$> knowledge s).
Proof.
  cbn zeta. pose proof (unclicked_run h w ops c) as Hu.
  pose proof (tidy_run ops _ (tidy_init h w)) as (Hnd & _).
  generalize dependent (run ops (init h w)). intros s Hu Hnd. split.
  - intros Hc%Hu.
    destruct (add_knowledge_returns c n s Hc)
      as (pre & post & s' & Heq & Hpre & Hrun & (_ & _ & Hm & Hun & _ & Hs & _)).
    exists s'. split; [done|]. rewrite Hm, Hun.
    cbn [with_sentence after_click moves_made unclicked safes] in *.
    rewrite Heq in Hnd. apply NoDup_app in Hnd as (_ & Hcross & Hpost).
    apply NoDup_cons in Hpost as [Hcpost _].
    split_and!.
    + set_solver.
    + apply Hs. set_solver.
    + intros [?|?]%elem_of_app; [|done]. by apply (Hcross c).
    + rewrite Heq, !length_app. cbn [length]. lia.
  - intros Hc. split; [|done]. apply add_knowledge_raises. by rewrite Hu.
Qed.

(** ** The confirmed sets only grow *)

Lemma step_grows o s :
  moves_made s ⊆ moves_made (step o s) ∧
  mines s ⊆ mines (step o s) ∧
  safes s ⊆ safes (step o s).
Proof.
  assert (∀ s', later s s' →
            moves_made s ⊆ moves_made s' ∧ mines s ⊆ mines s' ∧
            safes s ⊆ safes s') as Hl.
  { intros s' (_ & _ & -> & _ & ? & ? & _). done. }
  destruct o as [c n|c|c| | |rnd|rnd]; cbn [step].
  - rewrite add_knowledge_run.
    destruct (list_remove c (unclicked s)) as [rest|]; cbn [state_of].
    + pose proof (later_trans _ _ _
        (later_make_inferences (with_sentence c n rest s))
        (later_check_obvious _)) as (_ & _ & -> & _ & Hmi & Hsa & _).
      cbn [with_sentence after_click moves_made mines safes] in *.
      split_and!; [set_solver|done|set_solver].
    + cbn [after_click moves_made mines safes]. split_and!; set_solver.
  - apply Hl, later_mark_mine.
  - apply Hl, later_mark_safe.
  - apply Hl, later_make_inferences.
  - apply Hl, later_check_obvious.
  - destruct (make_safe_move_run rnd s) as [r ->]. done.
  - rewrite make_random_move_run. done.
Qed.

Lemma run_app ops1 ops2 s : run (ops1 ++ ops2) s = run ops2 (run ops1 s).
Proof. unfold run. by rewrite foldl_app. Qed.

Lemma run_grows ops s :
  moves_made s ⊆ moves_made (run ops s) ∧
  mines s ⊆ mines (run ops s) ∧
  safes s ⊆ safes (run ops s).
Proof.
  revert s. induction ops as [|o ops IH]; intros s; [done|].
  change (run (o :: ops) s) with (run ops (step o s)).
  destruct (IH (step o s)) as (H1 & H2 & H3).
  destruct (step_grows o s) as (G1 & G2 & G3).
  split_and!; etrans; eauto.
Qed.

(** X4: no call ever takes a cell out of [moves_made], [mines] or
    [safes], whether it returns or raises, and the height and width
    stay; and in every state reached from a fresh engine every move made
    is a confirmed safe cell. *)
Theorem X4_confirmed_sets_only_grow :
  (∀ ops s,
     moves_made s ⊆ moves_made (run ops s) ∧
     mines s ⊆ mines (run ops s) ∧
     safes s ⊆ safes (run ops s) ∧
     height (run ops s) = height s ∧ width (run ops s) = width s) ∧
  (∀ h w ops, moves_made (run ops (init h w)) ⊆ safes (run ops (init h w))).
Proof.
  split.
  - intros ops s. destruct (run_grows ops s) as (? & ? & ?).
    destruct (run_grid ops s). done.
  - intros h w ops. apply (tidy_run ops _ (tidy_init h w)).
Qed.

(** ** Marking twice, marking in another order *)

Lemma sentence_mark_safe_twice c x :
  Sentence.mark_safe c (Sentence.mark_safe c x) = Sentence.mark_safe c x.
Proof.
  rewrite !sentence_mark_safe_eq. cbn [cells count]. f_equal. set_solver.
Qed.

Lemma sentence_mark_mine_twice c x :
  Sentence.mark_mine c (Sentence.mark_mine c x) = Sentence.mark_mine c x.
Proof.
  rewrite (sentence_mark_mine_eq c (Sentence.mark_mine c x)).
  rewrite (sentence_mark_mine_eq c x). cbn [cells count].
  assert ((cells x ∖ {[c]}) ∩ {[c]} = ∅) as -> by set_solver.
  unfold len_set at 2. rewrite size_empty. f_equal; [set_solver|lia].
Qed.

(** X5: [mark_mine] and [mark_safe] are idempotent on the whole engine
    state, and marking two cells safe (or two cells as mines) gives the
    same state in either order. *)
Theorem X5_marking_idempotent_and_commutes s a b :
  state_of (mark_mine a (state_of (mark_mine a s))) = state_of (mark_mine a s) ∧
  state_of (mark_safe a (state_of (mark_safe a s))) = state_of (mark_safe a s) ∧
  state_of (mark_safe b (state_of (mark_safe a s))) =
    state_of (mark_safe a (state_of (mark_safe b s))) ∧
  state_of (mark_mine b (state_of (mark_mine a s))) =
    state_of (mark_mine a (state_of (mark_mine b s))).
Proof.
  repeat first [rewrite mark_mine_run | rewrite mark_safe_run
               | progress cbn [state_of]].
  cbn [height width moves_made mines safes unclicked knowledge].
  rewrite <- !list_fmap_compose. split_and!; f_equal; try set_solver.
  - apply list_fmap_ext. intros i x _. apply sentence_mark_mine_twice.
  - apply list_fmap_ext. intros i x _. apply sentence_mark_safe_twice.
  - apply list_fmap_ext. intros i x _. cbn.
    rewrite !sentence_mark_safe_eq. cbn [cells count]. f_equal. set_solver.
  - apply list_fmap_ext. intros i x _.
    change (foldl (λ y c, Sentence.mark_mine c y) x [a; b] =
            foldl (λ y c, Sentence.mark_mine c y) x [b; a]).
    rewrite !foldl_mark_mine. cbn [list_to_set].
    assert (({[a]} ∪ ({[b]} ∪ ∅) : gset cell) = {[b]} ∪ ({[a]} ∪ ∅)) as ->
      by set_solver.
    done.
Qed.

(** ** What one sweep does *)

Lemma check_obvious_effect s :
  ∃ sc mc,
    (∀ c, c ∈ sc ↔ ∃ x, x ∈ knowledge s ∧ cells x ≠ ∅ ∧ count x = 0 ∧ c ∈ cells x) ∧
    (∀ c, c ∈ mc ↔ ∃ x, x ∈ knowledge s ∧ cells x ≠ ∅ ∧
                        count x = len_set (cells x) ∧ c ∈ cells x) ∧
    check_obvious s =
    Ret tt (mkAI (height s) (width s) (moves_made s)
                 (mines s ∪ list_to_set mc) (safes s ∪ list_to_set sc)
                 (unclicked s)
                 (marked sc mc <$>
                    filter (λ x, len_set (Sentence.show_cells x) ≠ 0) (knowledge s))).
Proof.
  destruct (check_obvious_run s) as (sc & mc & Hscan & Hrun).
  destruct (scan_spec _ _ _ _ Hscan) as (_ & Hsc & Hmc).
  by exists sc, mc.
Qed.

(** X6: [check_obvious] never raises, although it calls [list.remove].
    It drops the sentences that were empty when it started and keeps the
    others in their order, each with the collected cells taken out: the
    cells collected as safe first, then the cells collected as mines,
    each of these lowering the count by one.  Afterwards a cell is in
    [safes] exactly when it was before or lay in a non-empty sentence of
    count 0, a cell is in [mines] exactly when it was before or lay in a
    non-empty sentence whose count was the number of its cells, and no
    sentence holds such a cell any more. *)
Theorem X6_sweep s :
  ∃ s' (S Mn : gset cell),
    check_obvious s = Ret tt s' ∧
    (∀ c, c ∈ S ↔
          ∃ x, x ∈ knowledge s ∧ cells x ≠ ∅ ∧ count x = 0 ∧ c ∈ cells x) ∧
    (∀ c, c ∈ Mn ↔
          ∃ x, x ∈ knowledge s ∧ cells x ≠ ∅ ∧
               count x = len_set (cells x) ∧ c ∈ cells x) ∧
    knowledge s' =
      (λ x, mkSentence (cells x ∖ S ∖ Mn)
                       (count x - len_set ((cells x ∖ S) ∩ Mn)))
        <$> filter (λ x, cells x ≠ ∅) (knowledge s) ∧
    length (knowledge s') =
      length (filter (λ x, cells x ≠ ∅) (knowledge s)) ∧
    safes s' = safes s ∪ S ∧
    mines s' = mines s ∪ Mn ∧
    (∀ c, c ∈ safes s' ↔
          c ∈ safes s ∨
          ∃ x, x ∈ knowledge s ∧ cells x ≠ ∅ ∧ count x = 0 ∧ c ∈ cells x) ∧
    (∀ c, c ∈ mines s' ↔
          c ∈ mines s ∨
          ∃ x, x ∈ knowledge s ∧ cells x ≠ ∅ ∧
               count x = len_set (cells x) ∧ c ∈ cells x) ∧
    (∀ c y, c ∈ safes s' ∖ safes s ∨ c ∈ mines s' ∖ mines s →
            y ∈ knowledge s' → c ∉ cells y) ∧
    moves_made s' = moves_made s ∧ unclicked s' = unclicked s ∧
    height s' = height s ∧ width s' = width s.
Proof.
  destruct (check_obvious_effect s) as (sc & mc & Hsc & Hmc & Hrun).
  assert (filter (λ x, len_set (Sentence.show_cells x) ≠ 0) (knowledge s) =
          filter (λ x, cells x ≠ ∅) (knowledge s)) as Hfilter.
  { apply list_filter_iff. intros x. unfold Sentence.show_cells.
    by rewrite len_set_zero. }
  eexists. exists (list_to_set sc), (list_to_set mc).
  split; [exact Hrun|].
  cbn [knowledge safes mines moves_made unclicked height width].
  rewrite Hfilter.
  assert (marked sc mc <$> filter (λ x, cells x ≠ ∅) (knowledge s) =
          (λ x, mkSentence (cells x ∖ list_to_set sc ∖ list_to_set mc)
                  (count x - len_set ((cells x ∖ list_to_set sc) ∩ list_to_set mc)))
            <$> filter (λ x, cells x ≠ ∅) (knowledge s)) as Hk.
  { apply list_fmap_ext. intros i x _. apply marked_eq. }
  split_and!; try done.
  - intros c. by rewrite elem_of_list_to_set, Hsc.
  - intros c. by rewrite elem_of_list_to_set, Hmc.
  - by rewrite length_fmap.
  - intros c. by rewrite elem_of_union, elem_of_list_to_set, Hsc.
  - intros c. by rewrite elem_of_union, elem_of_list_to_set, Hmc.
  - intros c y Hc (x & -> & _)%list_elem_of_fmap.
    rewrite marked_eq. cbn [cells]. set_solver.
Qed.

(** ** What one propagation pass adds *)

(** X7: [make_inferences] returns and changes [knowledge] only, by
    appending: every sentence it appends is (B.cells - A.cells,
    B.count - A.count) for two old sentences with A.cells a strict subset
    of B.cells, so it has at least one cell; and when no old sentence's
    cells are a strict subset of another's it leaves the state as it
    is. *)
Theorem X7_propagation_adds_differences s :
  ∃ added,
    make_inferences s = Ret tt (set_knowledge (λ K, K ++ added) s) ∧
    (∀ x, x ∈ added →
       cells x ≠ ∅ ∧
       ∃ A B, A ∈ knowledge s ∧ B ∈ knowledge s ∧ cells A ⊂ cells B ∧
              x = mkSentence (cells B ∖ cells A) (count B - count A)) ∧
    ((∀ A B, A ∈ knowledge s → B ∈ knowledge s → ¬ cells A ⊂ cells B) →
     added = [] ∧ make_inferences s = Ret tt s).
Proof.
  destruct (make_inferences_knowledge s) as (added & Hrun & _ & Hadd & _).
  exists added. split_and!; [done| |].
  - intros x [(A & B & HA & HB & Hsub & ->)%elem_of_new_knowledge _]%Hadd.
    split; [|by exists A, B]. cbn [cells].
    destruct Hsub as [Hsub Hnsub]. intros He. apply Hnsub. set_solver.
  - intros Hnone. assert (added = []) as ->.
    { destruct added as [|x added]; [done|].
      destruct (Hadd x) as [(A & B & HA & HB & Hsub & _)%elem_of_new_knowledge _];
        [left|]. by destruct (Hnone A B). }
    split; [done|]. rewrite Hrun. f_equal. destruct s; cbn.
    unfold set_knowledge; cbn. by rewrite app_nil_r.
Qed.

(** ** Safe moves *)

Lemma make_safe_move_eq rnd s :
  make_safe_move rnd s =
  Ret (let safe_cells_list := elements (safes s ∖ moves_made s) in
       if decide (0 < Z.of_nat (length safe_cells_list))
       then choice rnd safe_cells_list else None) s.
Proof.
  unfold make_safe_move, mbind, M_bind, get. cbn beta iota zeta.
  by case_decide.
Qed.

Lemma make_safe_move_Some rnd s c s' :
  make_safe_move rnd s = Ret (Some c) s' → c ∈ safes s ∧ c ∉ moves_made s.
Proof.
  rewrite make_safe_move_eq. cbn zeta. intros [= Hr _].
  case_decide as Hlen; [|done].
  destruct (choice_Some rnd (elements (safes s ∖ moves_made s)))
    as (x & Hx & Hin).
  { intros Hnil. rewrite Hnil in Hlen. cbn in Hlen. lia. }
  rewrite Hx in Hr. injection Hr as ->.
  apply elem_of_elements in Hin. set_solver.
Qed.

Lemma make_safe_move_finds s rnd :
  safes s ∖ moves_made s ≠ ∅ → ∃ c, make_safe_move rnd s = Ret (Some c) s.
Proof.
  intros Hne. rewrite make_safe_move_eq. cbn zeta.
  assert (elements (safes s ∖ moves_made s) ≠ []) as Hl.
  { intros Hnil. apply Hne. by apply elements_empty_inv, leibniz_equiv in Hnil. }
  rewrite decide_True.
  - destruct (choice_Some rnd _ Hl) as (x & -> & _). by exists x.
  - destruct (elements (safes s ∖ moves_made s)); [done|]. cbn. lia.
Qed.

(** X8: for every state, [make_safe_move] returns and leaves the state as
    it is; it answers [None] exactly when [safes - moves_made] is empty,
    otherwise a cell of [safes] that is not in [moves_made]; and every
    such cell is the answer for some draw. *)
Theorem X8_make_safe_move s rnd :
  ∃ r, make_safe_move rnd s = Ret r s ∧
       (r = None ↔ safes s ∖ moves_made s = ∅) ∧
       (∀ c, r = Some c → c ∈ safes s ∧ c ∉ moves_made s) ∧
       (∀ c, c ∈ safes s → c ∉ moves_made s →
             ∃ rnd', make_safe_move rnd' s = Ret (Some c) s).
Proof.
  eexists. split; [apply make_safe_move_eq|]. cbn zeta.
  set (l := elements (safes s ∖ moves_made s)).
  assert (∀ c, c ∈ l ↔ c ∈ safes s ∧ c ∉ moves_made s) as Hl.
  { intros c. unfold l. rewrite elem_of_elements. set_solver. }
  split_and!.
  - case_decide as Hlen.
    + destruct (choice_Some rnd l) as (x & -> & Hx).
      { intros Hnil. rewrite Hnil in Hlen. cbn in Hlen. lia. }
      split; [done|]. intros He. apply Hl in Hx. set_solver.
    + split; [|done]. intros _. apply set_eq. intros c.
      split; [|set_solver]. intros Hc.
      assert (c ∈ l) as Hin by (apply Hl; set_solver).
      destruct l; [by apply elem_of_nil in Hin|]. cbn in Hlen. lia.
  - intros c Hr. case_decide as Hlen; [|done].
    destruct (choice_Some rnd l) as (x & Hx & Hin).
    { intros Hnil. rewrite Hnil in Hlen. cbn in Hlen. lia. }
    rewrite Hx in Hr. injection Hr as ->. by apply Hl.
  - intros c Hs Hm. assert (c ∈ l) as Hc by (by apply Hl).
    destruct (choice_any _ _ Hc) as [rnd' Hrnd]. exists rnd'.
    rewrite make_safe_move_eq. cbn zeta. fold l.
    rewrite decide_True; [by rewrite Hrnd|].
    destruct l; [by apply elem_of_nil in Hc|]. cbn. lia.
Qed.

(** X9: when every call of a run from a fresh engine agrees with one mine
    layout, every confirmed mine is a mine of the layout, no confirmed
    safe cell is one, and a cell [make_safe_move] answers is not a mine. *)
Theorem X9_safe_moves_are_not_mines L h w ops :
  agrees_run L ops (init h w) = true →
  mines (run ops (init h w)) ⊆ L ∧
  safes (run ops (init h w)) ## L ∧
  ∀ rnd c s', make_safe_move rnd (run ops (init h w)) = Ret (Some c) s' → c ∉ L.
Proof.
  intros Ha.
  pose proof (sound_run L ops _ Ha (sound_init L h w)) as (Hm & Hs & _).
  split_and!; [done|done|].
  intros rnd c s' [Hc _]%make_safe_move_Some HL. by apply (Hs c).
Qed.

(** X9 on a 3 by 3 grid whose one mine is (2,2): after (0,0) is observed
    with count 0, the move drawn with 0 is not the mine. *)
Lemma X9_safe_moves_are_not_mines_witness :
  agrees_run {[(2,2)]} [AddKnowledge (0,0) 0] (init 3 3) = true ∧
  ∃ c, make_safe_move 0 (run [AddKnowledge (0,0) 0] (init 3 3)) =
         Ret (Some c) (run [AddKnowledge (0,0) 0] (init 3 3)) ∧
       c ∉ ({[(2,2)]} : gset cell).
Proof.
  assert (agrees_run {[(2,2)]} [AddKnowledge (0,0) 0] (init 3 3) = true) as Ha
    by (vm_compute; reflexivity).
  split; [exact Ha|].
  destruct (X9_safe_moves_are_not_mines _ 3 3 _ Ha) as (_ & _ & Hsafe).
  destruct (make_safe_move_finds (run [AddKnowledge (0,0) 0] (init 3 3)) 0)
    as (c & Hc).
  - apply (bool_decide_unpack _). by vm_compute.
  - exists c. split; [exact Hc|]. by eapply Hsafe.
Defined.

(** ** Observations that settle every neighbour *)

(** X10: when [add_knowledge] is called on an unclicked cell with count
    0, every cell of the sentence it builds is in [safes] when it
    returns; when the count is the number of cells of that sentence,
    every one of them is in [mines] when it returns. *)
Theorem X10_all_or_nothing_observation s c n :
  c ∈ unclicked s →
  (n = 0 → constraint_cells s c ⊆ safes (state_of (add_knowledge c n s))) ∧
  (n = len_set (constraint_cells s c) →
   constraint_cells s c ⊆ mines (state_of (add_knowledge c n s))).
Proof.
  intros Hc.
  destruct (list_remove_elem_of _ _ Hc) as (pre & post & Heq & Hpre & Hrm).
  rewrite add_knowledge_run, Hrm. cbn [state_of].
  destruct (make_inferences_knowledge (with_sentence c n (pre ++ post) s))
    as (added & -> & _). cbn [state_of].
  destruct (check_obvious_effect
              (set_knowledge (λ K, K ++ added) (with_sentence c n (pre ++ post) s)))
    as (sc & mc & Hsc & Hmc & ->).
  cbn [state_of safes mines].
  assert (new_sentence (after_click c s) c n ∈
          knowledge (set_knowledge (λ K, K ++ added)
                       (with_sentence c n (pre ++ post) s))) as Hin.
  { cbn [knowledge set_knowledge with_sentence].
    apply elem_of_app. left. apply elem_of_app. right. left. }
  split.
  - intros -> x Hx. apply elem_of_union. right.
    apply elem_of_list_to_set, Hsc.
    exists (new_sentence (after_click c s) c 0).
    split_and!; [done| |done|exact Hx].
    intros He. change (x ∈ cells (new_sentence (after_click c s) c 0)) in Hx.
    rewrite He in Hx. set_solver.
  - intros Hn x Hx. apply elem_of_union. right.
    apply elem_of_list_to_set, Hmc.
    exists (new_sentence (after_click c s) c n).
    split_and!; [done| |exact Hn|exact Hx].
    intros He. change (x ∈ cells (new_sentence (after_click c s) c n)) in Hx.
    rewrite He in Hx. set_solver.
Qed.

(** X10 on a fresh 3 by 3 grid: (0,0) observed with count 0 confirms
    (1,1) as safe. *)
Lemma X10_all_or_nothing_observation_witness :
  (0,0) ∈ unclicked (init 3 3) ∧
  (1,1) ∈ safes (state_of (add_knowledge (0,0) 0 (init 3 3))).
Proof.
  assert ((0,0) ∈ unclicked (init 3 3)) as Hc by (vm_compute; left).
  split; [exact Hc|].
  apply (proj1 (X10_all_or_nothing_observation (init 3 3) (0,0) 0 Hc) eq_refl).
  apply (bool_decide_unpack _). by vm_compute.
Defined.

(** * The board *)

(** ** Python indexing *)

Lemma py_index_nonneg {A} (l : list A) (i : Z) :
  0 ≤ i → py_index l i = l !! Z.to_nat i.
Proof. intros Hi. unfold py_index. by rewrite decide_True. Qed.

Lemma py_set_nonneg {A} (l : list A) (i : Z) (x : A) :
  0 ≤ i < Z.of_nat (length l) → py_set l i x = Some (<[Z.to_nat i := x]> l).
Proof. intros Hi. unfold py_set. by rewrite decide_True. Qed.

Lemma py_index_negative {A} (l : list A) (i : Z) :
  - Z.of_nat (length l) ≤ i < 0 →
  py_index l i = py_index l (Z.of_nat (length l) + i).
Proof.
  intros Hi. unfold py_index.
  rewrite decide_False by lia. rewrite decide_True by lia.
  by rewrite decide_True by lia.
Qed.

Lemma py_index_out {A} (l : list A) (i : Z) :
  Z.of_nat (length l) ≤ i ∨ i < - Z.of_nat (length l) → py_index l i = None.
Proof.
  intros [Hi|Hi]; unfold py_index.
  - rewrite decide_True by lia. apply lookup_ge_None. lia.
  - rewrite decide_False by lia. by rewrite decide_False by lia.
Qed.

(** ** The empty field *)

Lemma lookup_range lo hi (k : nat) :
  lo + Z.of_nat k < hi → range lo hi !! k = Some (lo + Z.of_nat k).
Proof.
  intros Hk. unfold range. rewrite lookup_seqZ. split; [lia|lia].
Qed.

Lemma length_range lo hi : length (range lo hi) = Z.to_nat (hi - lo).
Proof. unfold range. apply length_seqZ. Qed.

Lemma empty_board_at h w mf c :
  in_grid h w c →
  Minesweeper.board_at
    (Minesweeper.mkGame h w ∅ (Minesweeper.empty_board h w) mf) c.1 c.2 =
  Some false.
Proof.
  intros [Hi Hj]. unfold Minesweeper.board_at, Minesweeper.empty_board.
  cbn [Minesweeper.board].
  rewrite py_index_nonneg by lia. rewrite list_lookup_fmap.
  rewrite (lookup_range 0 h) by lia. cbn [fmap option_fmap option_map mbind option_bind].
  rewrite py_index_nonneg by lia. rewrite list_lookup_fmap.
  rewrite (lookup_range 0 w) by lia. done.
Qed.

(** ** Laying a mine *)

Lemma board_at_nonneg g i j :
  0 ≤ i → 0 ≤ j →
  Minesweeper.board_at g i j =
  (row ← Minesweeper.board g !! Z.to_nat i; row !! Z.to_nat j).
Proof.
  intros Hi Hj. unfold Minesweeper.board_at. rewrite py_index_nonneg by done.
  destruct (Minesweeper.board g !! Z.to_nat i) as [row|]; [|done].
  cbn. by rewrite py_index_nonneg.
Qed.

Lemma lay_mine h w ms b mf i j :
  0 ≤ i → 0 ≤ j →
  Minesweeper.board_at (Minesweeper.mkGame h w ms b mf) i j = Some false →
  ∃ b', (row ← py_index b i; row' ← py_set row j true; py_set b i row') = Some b' ∧
        ∀ ms' i' j', 0 ≤ i' → 0 ≤ j' →
          Minesweeper.board_at (Minesweeper.mkGame h w ms' b' mf) i' j' =
          if decide ((i', j') = (i, j)) then Some true
          else Minesweeper.board_at (Minesweeper.mkGame h w ms b mf) i' j'.
Proof.
  intros Hi Hj Hat. rewrite board_at_nonneg in Hat by done.
  cbn [Minesweeper.board] in Hat.
  destruct (b !! Z.to_nat i) as [row|] eqn:Hrow; [|done]. cbn in Hat.
  pose proof (lookup_lt_Some _ _ _ Hrow) as Hlti.
  pose proof (lookup_lt_Some _ _ _ Hat) as Hltj.
  exists (<[Z.to_nat i := <[Z.to_nat j := true]> row]> b). split.
  - rewrite py_index_nonneg by done. rewrite Hrow. cbn.
    rewrite py_set_nonneg by lia. cbn. rewrite py_set_nonneg by lia. done.
  - intros ms' i' j' Hi' Hj'. rewrite !board_at_nonneg by done.
    cbn [Minesweeper.board].
    destruct (decide (Z.to_nat i' = Z.to_nat i)) as [Hei|Hni].
    + rewrite Hei, list_lookup_insert_eq by done. rewrite Hrow. cbn.
      destruct (decide (Z.to_nat j' = Z.to_nat j)) as [Hej|Hnj].
      * rewrite Hej, list_lookup_insert_eq by done.
        rewrite decide_True; [done|]. f_equal; lia.
      * rewrite list_lookup_insert_ne by done.
        rewrite decide_False; [done|]. intros [= _ ->]. done.
    + rewrite list_lookup_insert_ne by done.
      rewrite decide_False; [done|]. intros [= -> _]. done.
Qed.

Lemma randrange_Some n r i :
  Minesweeper.randrange n r = Some i → 0 ≤ i < n ∧ i = Z.of_nat r `mod` n.
Proof.
  unfold Minesweeper.randrange. case_decide; [|done]. intros [= <-].
  split; [|done]. by apply Z.mod_pos_bound.
Qed.

Lemma hits_cons h w r draws :
  Minesweeper.hits h w (r :: draws) =
  {[(Z.of_nat r.1 `mod` h, Z.of_nat r.2 `mod` w)]} ∪ Minesweeper.hits h w draws.
Proof. done. Qed.

Lemma well_formed_lay h w ms b mf i j b' :
  (0 ≤ i < h) → (0 ≤ j < w) →
  Minesweeper.well_formed (Minesweeper.mkGame h w ms b mf) →
  (∀ ms' i' j', 0 ≤ i' → 0 ≤ j' →
     Minesweeper.board_at (Minesweeper.mkGame h w ms' b' mf) i' j' =
     if decide ((i', j') = (i, j)) then Some true
     else Minesweeper.board_at (Minesweeper.mkGame h w ms b mf) i' j') →
  Minesweeper.well_formed (Minesweeper.mkGame h w (ms ∪ {[(i, j)]}) b' mf).
Proof.
  intros Hi Hj [Hb Hm] Hb'. split; cbn [Minesweeper.height Minesweeper.width
    Minesweeper.mines] in *.
  - intros [i' j'] [Hi' Hj']. cbn [fst snd] in *.
    rewrite Hb' by lia. case_decide as Heq.
    + rewrite Heq. f_equal. symmetry. apply bool_decide_eq_true. set_solver.
    + pose proof (Hb (i', j') (conj Hi' Hj')) as Hold. cbn [fst snd] in Hold.
      rewrite Hold. f_equal. apply bool_decide_ext. set_solver.
  - intros c [Hc| ->%elem_of_singleton]%elem_of_union; [by apply Hm|done].
Qed.

(** ** The constructor's loop *)

Lemma place_spec target draws :
  ∀ g, Minesweeper.well_formed g →
  match Minesweeper.place target draws g with
  | Minesweeper.Built g' =>
      Minesweeper.height g' = Minesweeper.height g ∧
      Minesweeper.width g' = Minesweeper.width g ∧
      Minesweeper.mines_found g' = Minesweeper.mines_found g ∧
      Minesweeper.well_formed g' ∧
      len_set (Minesweeper.mines g') = target ∧
      Minesweeper.mines g ⊆ Minesweeper.mines g' ∧
      Minesweeper.mines g' ⊆
        Minesweeper.mines g ∪
        Minesweeper.hits (Minesweeper.height g) (Minesweeper.width g) draws
  | Minesweeper.RaisedValueError =>
      Minesweeper.height g ≤ 0 ∨ Minesweeper.width g ≤ 0
  | Minesweeper.RaisedIndexError => False
  | Minesweeper.OutOfDraws => True
  end.
Proof.
  induction draws as [|[r1 r2] draws IH]; intros g Hwf.
  - cbn [Minesweeper.place]. case_decide; [|done].
    split_and!; try done. set_solver.
  - cbn [Minesweeper.place]. case_decide as Hlen.
    { split_and!; try done. set_solver. }
    destruct (Minesweeper.randrange (Minesweeper.height g) r1) as [i|] eqn:Hr1.
    2:{ left. unfold Minesweeper.randrange in Hr1. case_decide; [done|lia]. }
    destruct (Minesweeper.randrange (Minesweeper.width g) r2) as [j|] eqn:Hr2.
    2:{ right. unfold Minesweeper.randrange in Hr2. case_decide; [done|lia]. }
    apply randrange_Some in Hr1 as [Hi Hei], Hr2 as [Hj Hej].
    pose proof (proj1 Hwf (i, j) (conj Hi Hj)) as Hat. cbn [fst snd] in Hat.
    rewrite Hat. rewrite hits_cons. cbn [fst snd]. rewrite <- Hei, <- Hej.
    destruct (bool_decide ((i, j) ∈ Minesweeper.mines g)) eqn:Hb.
    + specialize (IH g Hwf).
      destruct (Minesweeper.place target draws g); try done.
      destruct IH as (? & ? & ? & ? & ? & ? & ?). split_and!; try done.
      set_solver.
    + destruct g as [h w ms b mf].
      cbn [Minesweeper.height Minesweeper.width Minesweeper.mines
           Minesweeper.board Minesweeper.mines_found] in *.
      destruct (lay_mine h w ms b mf i j) as (b' & -> & Hb'); [lia|lia|done|].
      pose proof (well_formed_lay h w ms b mf i j b' Hi Hj Hwf Hb') as Hwf'.
      specialize (IH _ Hwf').
      destruct (Minesweeper.place target draws _); try done.
      cbn [Minesweeper.height Minesweeper.width Minesweeper.mines
           Minesweeper.board Minesweeper.mines_found] in IH.
      destruct IH as (? & ? & ? & ? & ? & ? & ?). split_and!; try done.
      * set_solver.
      * set_solver.
Qed.

Lemma place_hits target draws :
  ∀ g, Minesweeper.well_formed g →
  0 < Minesweeper.height g → 0 < Minesweeper.width g →
  target = len_set (Minesweeper.mines g ∪
             Minesweeper.hits (Minesweeper.height g) (Minesweeper.width g) draws) →
  ∃ g', Minesweeper.place target draws g = Minesweeper.Built g' ∧
        Minesweeper.mines g' =
          Minesweeper.mines g ∪
          Minesweeper.hits (Minesweeper.height g) (Minesweeper.width g) draws.
Proof.
  induction draws as [|[r1 r2] draws IH]; intros g Hwf Hh Hw Ht.
  - cbn [Minesweeper.place]. rewrite decide_True.
    + exists g. split; [done|]. unfold Minesweeper.hits. cbn. set_solver.
    + rewrite Ht. f_equal. unfold Minesweeper.hits. cbn. set_solver.
  - cbn [Minesweeper.place]. case_decide as Hlen.
    { exists g. split; [done|].
      apply set_subseteq_size_eq; [set_solver|].
      rewrite Ht in Hlen. unfold len_set in Hlen. lia. }
    unfold Minesweeper.randrange. rewrite !decide_True by done.
    set (i := Z.of_nat r1 `mod` Minesweeper.height g).
    set (j := Z.of_nat r2 `mod` Minesweeper.width g).
    assert (0 ≤ i < Minesweeper.height g) as Hi by (by apply Z.mod_pos_bound).
    assert (0 ≤ j < Minesweeper.width g) as Hj by (by apply Z.mod_pos_bound).
    pose proof (proj1 Hwf (i, j) (conj Hi Hj)) as Hat. cbn [fst snd] in Hat.
    rewrite Hat. rewrite hits_cons in Ht |- *. cbn [fst snd] in Ht |- *.
    fold i j in Ht |- *.
    destruct (bool_decide ((i, j) ∈ Minesweeper.mines g)) eqn:Hb.
    + apply bool_decide_eq_true in Hb.
      assert (Minesweeper.mines g ∪ ({[(i, j)]} ∪
                Minesweeper.hits (Minesweeper.height g) (Minesweeper.width g) draws) =
              Minesweeper.mines g ∪
                Minesweeper.hits (Minesweeper.height g) (Minesweeper.width g) draws)
        as Heq by set_solver.
      rewrite Heq in Ht |- *. by apply IH.
    + destruct g as [h w ms b mf].
      cbn [Minesweeper.height Minesweeper.width Minesweeper.mines
           Minesweeper.board Minesweeper.mines_found] in *.
      destruct (lay_mine h w ms b mf i j) as (b' & -> & Hb'); [lia|lia|done|].
      pose proof (well_formed_lay h w ms b mf i j b' Hi Hj Hwf Hb') as Hwf'.
      assert (ms ∪ ({[(i, j)]} ∪ Minesweeper.hits h w draws) =
              (ms ∪ {[(i, j)]}) ∪ Minesweeper.hits h w draws) as Heq by set_solver.
      rewrite Heq in Ht |- *.
      exact (IH (Minesweeper.mkGame h w (ms ∪ {[(i, j)]}) b' mf) Hwf' Hh Hw Ht).
Qed.

Lemma well_formed_empty h w mf :
  Minesweeper.well_formed
    (Minesweeper.mkGame h w ∅ (Minesweeper.empty_board h w) mf).
Proof.
  split; cbn [Minesweeper.height Minesweeper.width Minesweeper.mines].
  - intros c Hc. rewrite empty_board_at by done. f_equal.
  - set_solver.
Qed.

Lemma size_in_grid (h w : Z) (X : gset cell) :
  (∀ c, c ∈ X → in_grid h w c) →
  len_set X ≤ Z.of_nat (Z.to_nat h * Z.to_nat w).
Proof.
  intros HX. unfold len_set.
  assert (X ⊆ list_to_set (unclicked (init h w))) as Hsub.
  { intros c Hc. apply elem_of_list_to_set, elem_of_init_unclicked. by apply HX. }
  pose proof (subseteq_size _ _ Hsub) as Hle.
  pose proof (size_list_to_set (C:=gset cell) (unclicked (init h w))) as Hsz.
  rewrite Hsz in Hle by apply (tidy_init h w).
  assert (length (unclicked (init h w)) = (Z.to_nat h * Z.to_nat w)%nat) as Hlen.
  { unfold init; cbn [unclicked].
    rewrite (length_bind_const _ (Z.to_nat w)).
    - rewrite length_range. f_equal. lia.
    - intros i. rewrite (length_bind_const _ 1%nat) by done.
      rewrite length_range. lia. }
  lia.
Qed.

(** X11: [Minesweeper.__init__] never raises [IndexError].  When it
    returns, the object has the given height and width, no mine found,
    exactly [mines] mines, all of them cells of the grid and cells the
    draws hit, and [board[i][j]] is [True] exactly at the mines; so the
    number asked for lies between 0 and height * width, and for any other
    number the loop never ends.  It raises the [ValueError] of
    [randrange] only when the height or width is not positive and a mine
    is asked for.  When height and width are positive and the draws hit
    exactly as many cells as mines are asked for, it returns with the
    mines at the cells hit. *)
Theorem X11_board_constructor h w target draws :
  match Minesweeper.init h w target draws with
  | Minesweeper.Built g =>
      Minesweeper.height g = h ∧ Minesweeper.width g = w ∧
      Minesweeper.mines_found g = ∅ ∧
      Minesweeper.well_formed g ∧
      len_set (Minesweeper.mines g) = target ∧
      Minesweeper.mines g ⊆ Minesweeper.hits h w draws ∧
      0 ≤ target ≤ Z.of_nat (Z.to_nat h * Z.to_nat w)
  | Minesweeper.RaisedValueError => (h ≤ 0 ∨ w ≤ 0) ∧ target ≠ 0
  | Minesweeper.RaisedIndexError => False
  | Minesweeper.OutOfDraws => target ≠ 0
  end ∧
  (0 < h → 0 < w → target = len_set (Minesweeper.hits h w draws) →
   ∃ g, Minesweeper.init h w target draws = Minesweeper.Built g ∧
        Minesweeper.mines g = Minesweeper.hits h w draws).
Proof.
  split.
  - unfold Minesweeper.init.
    pose proof (place_spec target draws _ (well_formed_empty h w ∅)) as Hp.
    assert (target = 0 →
            ∃ g, Minesweeper.place target draws
                   (Minesweeper.mkGame h w ∅ (Minesweeper.empty_board h w) ∅) =
                 Minesweeper.Built g) as H0.
    { intros ->. eexists. destruct draws as [|[??] ?]; cbn [Minesweeper.place];
        rewrite decide_True; done. }
    destruct (Minesweeper.place target draws _) as [g| | |].
    + cbn [Minesweeper.height Minesweeper.width Minesweeper.mines
           Minesweeper.mines_found] in *.
      destruct Hp as (Hh & Hw & _ & [Hb Hm] & Hlen & _ & Hhit).
      split_and!.
      * exact Hh.
      * exact Hw.
      * reflexivity.
      * split; [exact Hb|exact Hm].
      * exact Hlen.
      * intros c Hc. apply Hhit in Hc. set_solver.
      * rewrite <- Hlen. unfold len_set. lia.
      * rewrite <- Hlen. apply size_in_grid. intros c Hc.
        rewrite <- Hh, <- Hw. by apply Hm.
    + split; [done|]. intros Ht. by destruct (H0 Ht).
    + done.
    + intros Ht. by destruct (H0 Ht).
  - intros Hh Hw Ht.
    destruct (place_hits target draws
                (Minesweeper.mkGame h w ∅ (Minesweeper.empty_board h w) ∅))
      as (g & Hg & Hm); try done.
    + apply well_formed_empty.
    + cbn [Minesweeper.mines Minesweeper.height Minesweeper.width].
      rewrite Ht. f_equal. set_solver.
    + unfold Minesweeper.init. rewrite Hg. eexists. split; [done|].
      cbn [Minesweeper.mines Minesweeper.height Minesweeper.width] in *.
      rewrite Hm. set_solver.
Qed.


(** ** Counting the mines around a cell *)

Lemma NoDup_window lo1 hi1 lo2 hi2 :
  NoDup (i ← range lo1 hi1; j ← range lo2 hi2; [(i, j)]).
Proof.
  apply NoDup_bind.
  - intros i1 i2 [a b] _ _ (j1 & ->%list_elem_of_singleton & _)%list_elem_of_bind
      (j2 & [= -> _]%list_elem_of_singleton & _)%list_elem_of_bind. done.
  - intros i _. apply NoDup_bind.
    + intros j1 j2 y _ _ ->%list_elem_of_singleton
        [= ->]%list_elem_of_singleton. done.
    + intros j _. apply NoDup_singleton.
    + apply NoDup_seqZ.
  - apply NoDup_seqZ.
Qed.

Lemma elem_of_window lo1 hi1 lo2 hi2 (x : cell) :
  x ∈ (i ← range lo1 hi1; j ← range lo2 hi2; [(i, j)]) ↔
  (lo1 ≤ x.1 < hi1) ∧ (lo2 ≤ x.2 < hi2).
Proof.
  rewrite list_elem_of_bind. split.
  - intros (i & (j & ->%list_elem_of_singleton & Hj)%list_elem_of_bind & Hi).
    apply elem_of_range in Hi, Hj. done.
  - intros [Hi Hj]. destruct x as [i j]; cbn [fst snd] in *.
    exists i. split; [|by apply elem_of_range].
    apply list_elem_of_bind. exists j. split; [by left|].
    by apply elem_of_range.
Qed.

Lemma nearby_mines_count g c :
  Minesweeper.well_formed g →
  Minesweeper.nearby_mines g c =
  Some (Z.of_nat (length
    (filter (λ x, x ≠ c ∧
                  in_grid (Minesweeper.height g) (Minesweeper.width g) x ∧
                  x ∈ Minesweeper.mines g)
       (i ← range (c.1 - 1) (c.1 + 2); j ← range (c.2 - 1) (c.2 + 2); [(i, j)])))).
Proof.
  intros [Hb _]. unfold Minesweeper.nearby_mines.
  generalize (i ← range (c.1 - 1) (c.1 + 2); j ← range (c.2 - 1) (c.2 + 2); [(i, j)]).
  intros l.
  assert (∀ a : Z,
    foldl (λ (count : option Z) (ij : cell),
             n ← count;
             if decide (ij = c) then Some n
             else if decide ((0 ≤ ij.1 < Minesweeper.height g) ∧
                             (0 ≤ ij.2 < Minesweeper.width g))
                  then b ← Minesweeper.board_at g ij.1 ij.2;
                       Some (if b : bool then n + 1 else n)
                  else Some n)
          (Some a) l =
    Some (a + Z.of_nat (length
      (filter (λ x, x ≠ c ∧
                    in_grid (Minesweeper.height g) (Minesweeper.width g) x ∧
                    x ∈ Minesweeper.mines g) l)))) as Hgen.
  { induction l as [|x l IH]; intros a.
    - cbn. f_equal. lia.
    - cbn [foldl]. cbn [mbind option_bind].
      destruct (decide (x = c)) as [Hx|Hx].
      + rewrite IH. rewrite filter_cons_False by tauto. done.
      + destruct (decide ((0 ≤ x.1 < Minesweeper.height g) ∧
                          (0 ≤ x.2 < Minesweeper.width g))) as [Hg|Hg].
        * rewrite (Hb x Hg). cbn [mbind option_bind].
          destruct (bool_decide (x ∈ Minesweeper.mines g)) eqn:Hm.
          -- apply bool_decide_eq_true in Hm. rewrite IH.
             rewrite filter_cons_True by done. cbn [length]. f_equal. lia.
          -- apply bool_decide_eq_false in Hm. rewrite IH.
             rewrite filter_cons_False by tauto. done.
        * rewrite IH. rewrite filter_cons_False; [done|].
          intros (_ & Hin & _). by apply Hg. }
  rewrite Hgen. f_equal.
Qed.

Lemma init_well_formed h w target draws g :
  Minesweeper.init h w target draws = Minesweeper.Built g →
  Minesweeper.well_formed g ∧ Minesweeper.height g = h ∧
  Minesweeper.width g = w.
Proof.
  unfold Minesweeper.init.
  pose proof (place_spec target draws _ (well_formed_empty h w ∅)) as Hp.
  destruct (Minesweeper.place target draws _) as [g'| | |]; try done.
  intros [= <-]. destruct Hp as (Hh & Hw & _ & [Hb Hm] & _).
  split_and!; [split; [exact Hb|exact Hm]|exact Hh|exact Hw].
Qed.

(** X12: on a board whose [board[i][j]] is [True] exactly at the mines
    (as the constructor builds it), [is_mine] of a cell of the grid tells
    whether the cell is a mine, and [nearby_mines] returns, for every
    cell, in the grid or not, the number of mines among the cells of the
    grid that are within one row and one column of it, the cell itself
    not counted; the number is between 0 and 8. *)
Theorem X12_nearby_mines g c :
  Minesweeper.well_formed g →
  (in_grid (Minesweeper.height g) (Minesweeper.width g) c →
   Minesweeper.is_mine g c = Some (bool_decide (c ∈ Minesweeper.mines g))) ∧
  ∃ N : gset cell,
    Minesweeper.nearby_mines g c = Some (len_set N) ∧
    (∀ x, x ∈ N ↔
          spec_neighbor (Minesweeper.height g) (Minesweeper.width g) ∅ c x ∧
          x ∈ Minesweeper.mines g) ∧
    0 ≤ len_set N ≤ 8.
Proof.
  intros Hwf. split; [intros Hc; by apply (proj1 Hwf)|].
  rewrite (nearby_mines_count g c Hwf).
  set (W := i ← range (c.1 - 1) (c.1 + 2); j ← range (c.2 - 1) (c.2 + 2); [(i, j)]).
  set (P := λ x : cell,
         x ≠ c ∧ in_grid (Minesweeper.height g) (Minesweeper.width g) x ∧
         x ∈ Minesweeper.mines g).
  assert (NoDup (filter P W)) as Hnd by apply NoDup_filter, NoDup_window.
  exists (list_to_set (filter P W)). split_and!.
  - unfold len_set. by rewrite size_list_to_set.
  - intros x. rewrite elem_of_list_to_set, list_elem_of_filter.
    unfold W. rewrite elem_of_window. unfold P, spec_neighbor, in_grid.
    destruct x as [i j], c as [ci cj]; cbn [fst snd].
    split.
    + intros ((Hne & (Hi & Hj) & Hm) & Hwi & Hwj).
      split_and!; first [lia | done | set_solver].
    + intros ((Hi & Hj & Hgi & Hgj & Hne & _) & Hm).
      split_and!; first [lia | done].
  - unfold len_set. lia.
  - unfold len_set. rewrite size_list_to_set by done.
    assert (length W = 9%nat) as HW.
    { unfold W. rewrite (length_bind_const _ 3%nat).
      - rewrite length_range. lia.
      - intros i. rewrite (length_bind_const _ 1%nat) by done.
        rewrite length_range. lia. }
    assert (c ∈ W) as HcW by (unfold W; apply elem_of_window; lia).
    assert (¬ P c) as HPc by (unfold P; tauto).
    pose proof (length_filter_lt P W c HcW HPc). lia.
Qed.

(** X12 on the 3 by 3 board whose one mine is (1,1), as the constructor
    builds it from the draw (1,1). *)
Lemma X12_nearby_mines_witness :
  ∃ g, Minesweeper.init 3 3 1 [(1%nat, 1%nat)] = Minesweeper.Built g ∧
       ∃ N : gset cell,
         Minesweeper.nearby_mines g (0, 0) = Some (len_set N) ∧
         (0 ≤ len_set N ≤ 8).
Proof.
  destruct (Minesweeper.init 3 3 1 [(1%nat, 1%nat)]) as [g| | |] eqn:Hg;
    try (vm_compute in Hg; discriminate).
  exists g. split; [reflexivity|].
  destruct (X12_nearby_mines g (0, 0) (proj1 (init_well_formed _ _ _ _ _ Hg)))
    as (_ & N & HN & _ & Hb).
  exists N. split; [exact HN|exact Hb].
Defined.

(** * The engine against the board *)

Lemma list_remove_subset {A} `{EqDecision A} (x : A) l l' :
  list_remove x l = Some l' → ∀ y, y ∈ l' → y ∈ l.
Proof.
  intros Hrm y Hy. destruct (decide (x ∈ l)) as [Hx|Hx].
  - destruct (list_remove_elem_of _ _ Hx) as (pre & post & -> & _ & Hrm').
    rewrite Hrm' in Hrm. injection Hrm as <-.
    apply elem_of_app in Hy as [?|?]; apply elem_of_app; [by left|].
    right. by right.
  - by rewrite list_remove_None in Hrm.
Qed.

Lemma step_unclicked_subset o s c :
  c ∈ unclicked (step o s) → c ∈ unclicked s.
Proof.
  pose proof (step_moves o s) as Hm.
  destruct o as [c' n|c'|c'| | |rnd|rnd]; try (destruct Hm as [_ ->]; done).
  destruct Hm as [_ Hu].
  destruct (list_remove c' (unclicked s)) as [rest|] eqn:Hrm.
  - rewrite Hu. by apply (list_remove_subset c').
  - by rewrite Hu.
Qed.

(** On a square grid, the count the board gives for an unclicked cell is
    the number of mines among the cells of the sentence the engine builds
    for it. *)
Lemma board_count_agrees g k s c n :
  Minesweeper.well_formed g →
  Minesweeper.height g = k → Minesweeper.width g = k →
  height s = k → width s = k →
  moves_made s ## Minesweeper.mines g →
  c ∉ Minesweeper.mines g →
  Minesweeper.nearby_mines g c = Some n →
  n = len_set (constraint_cells s c ∩ Minesweeper.mines g).
Proof.
  intros Hwf Hgh Hgw Hsh Hsw Hmoves Hc Hn.
  rewrite (nearby_mines_count g c Hwf) in Hn. injection Hn as <-.
  rewrite Hgh, Hgw.
  set (W := i ← range (c.1 - 1) (c.1 + 2); j ← range (c.2 - 1) (c.2 + 2); [(i, j)]).
  set (P := λ x : cell, x ≠ c ∧ in_grid k k x ∧ x ∈ Minesweeper.mines g).
  assert (NoDup (filter P W)) as Hnd by apply NoDup_filter, NoDup_window.
  unfold len_set. rewrite <- (size_list_to_set (C:=gset cell) (filter P W)) by done.
  do 2 f_equal. apply set_eq. intros x.
  rewrite elem_of_list_to_set, list_elem_of_filter, elem_of_intersection.
  unfold W. rewrite elem_of_window.
  change (constraint_cells s c) with
    (cells (new_sentence (set_moves_made (λ m, m ∪ {[c]}) s) c 0)).
  rewrite new_sentence_cells. cbn [set_moves_made width height moves_made].
  rewrite Hsh, Hsw. unfold P, in_grid.
  rewrite not_elem_of_union, not_elem_of_singleton.
  destruct x as [i j], c as [ci cj]; cbn [fst snd]. split.
  - intros ((Hne & (Hi & Hj) & Hm) & Hwi & Hwj).
    split; [|done]. split_and!; first [lia | done | set_solver].
  - intros ((Hi & Hj & Hgi & Hgj & Hnm & Hne) & Hm).
    split_and!; first [lia | done].
Qed.

Lemma played_agrees g k s o :
  Minesweeper.well_formed g →
  Minesweeper.height g = k → Minesweeper.width g = k →
  height s = k → width s = k →
  tidy s → sound (Minesweeper.mines g) s →
  (∀ c, c ∈ unclicked s → in_grid k k c) →
  played g s o = true → agrees (Minesweeper.mines g) s o = true.
Proof.
  intros Hwf Hgh Hgw Hsh Hsw (_ & _ & Hms & _) (_ & Hsafe & _) Hgrid Hp.
  destruct o as [c n|c|c| | |rnd|rnd]; try done.
  cbn [played] in Hp. apply andb_prop in Hp as [Hp Hcount].
  apply andb_prop in Hp as [Hun Hmine].
  apply bool_decide_eq_true in Hun, Hmine, Hcount.
  assert (c ∉ Minesweeper.mines g) as Hc.
  { intros Hin. apply Hgrid in Hun. rewrite <- Hgh in Hun at 1.
    rewrite <- Hgw in Hun. unfold Minesweeper.is_mine in Hmine.
    rewrite (proj1 Hwf c Hun) in Hmine. injection Hmine as Hm.
    by apply bool_decide_eq_false in Hm. }
  cbn [agrees]. apply andb_true_intro. split; apply bool_decide_eq_true; [done|].
  eapply board_count_agrees; eauto. set_solver.
Qed.

Lemma played_run_agrees g k ops :
  Minesweeper.well_formed g →
  Minesweeper.height g = k → Minesweeper.width g = k →
  ∀ s, height s = k → width s = k →
       tidy s → sound (Minesweeper.mines g) s →
       (∀ c, c ∈ unclicked s → in_grid k k c) →
       played_run g ops s = true →
       agrees_run (Minesweeper.mines g) ops s = true.
Proof.
  intros Hwf Hgh Hgw.
  induction ops as [|o ops IH]; intros s Hsh Hsw Ht Hs Hgrid Hp; [done|].
  cbn [played_run] in Hp. apply andb_prop in Hp as [Ho Hops].
  pose proof (played_agrees g k s o Hwf Hgh Hgw Hsh Hsw Ht Hs Hgrid Ho) as Ha.
  cbn [agrees_run]. apply andb_true_intro. split; [done|].
  destruct (step_grid o s) as [Hh' Hw'].
  apply IH; try done.
  - by rewrite Hh'.
  - by rewrite Hw'.
  - by apply tidy_step.
  - by apply sound_step.
  - intros c Hc. by apply Hgrid, (step_unclicked_subset o).
Qed.

(** X13: on a square board whose [board[i][j]] is [True] exactly at the
    mines, let a fresh engine of the same size be driven as the game
    drives it: only unclicked cells that are no mines are observed, each
    with the board's [nearby_mines] count, and a cell is marked as a mine
    or as safe only when it is one.  Then after the run every confirmed
    mine is a mine of the board, no confirmed safe cell is one, and no
    cell [make_safe_move] answers is one. *)
Theorem X13_safe_on_square_boards g k ops :
  Minesweeper.well_formed g →
  Minesweeper.height g = k → Minesweeper.width g = k →
  played_run g ops (init k k) = true →
  mines (run ops (init k k)) ⊆ Minesweeper.mines g ∧
  safes (run ops (init k k)) ## Minesweeper.mines g ∧
  ∀ rnd c s', make_safe_move rnd (run ops (init k k)) = Ret (Some c) s' →
              c ∉ Minesweeper.mines g.
Proof.
  intros Hwf Hgh Hgw Hp.
  assert (agrees_run (Minesweeper.mines g) ops (init k k) = true) as Ha.
  { apply (played_run_agrees g k ops Hwf Hgh Hgw); try done.
    - apply tidy_init.
    - apply sound_init.
    - intros c Hc. by apply elem_of_init_unclicked. }
  pose proof (sound_run _ ops _ Ha (sound_init _ k k)) as (Hm & Hs & _).
  split_and!; [done|done|].
  intros rnd c s' [Hc _]%make_safe_move_Some HL. by apply (Hs c).
Qed.

(** X13 on the 3 by 3 board whose one mine is (2,2): (0,0) is observed
    with the board's count, and the move drawn with 0 is not the mine. *)
Lemma X13_safe_on_square_boards_witness :
  let g := Minesweeper.mkGame 3 3 {[(2,2)]}
             [[false; false; false]; [false; false; false]; [false; false; true]] ∅ in
  Minesweeper.init 3 3 1 [(2%nat, 2%nat)] = Minesweeper.Built g ∧
  played_run g [AddKnowledge (0,0) 0] (init 3 3) = true ∧
  ∃ c, make_safe_move 0 (run [AddKnowledge (0,0) 0] (init 3 3)) =
         Ret (Some c) (run [AddKnowledge (0,0) 0] (init 3 3)) ∧
       c ∉ Minesweeper.mines g.
Proof.
  cbn zeta.
  set (g := Minesweeper.mkGame 3 3 {[(2,2)]}
             [[false; false; false]; [false; false; false]; [false; false; true]] ∅).
  assert (Minesweeper.init 3 3 1 [(2%nat, 2%nat)] = Minesweeper.Built g) as Hg
    by (vm_compute; reflexivity).
  assert (played_run g [AddKnowledge (0,0) 0] (init 3 3) = true) as Hp
    by (vm_compute; reflexivity).
  split; [exact Hg|]. split; [exact Hp|].
  destruct (init_well_formed _ _ _ _ _ Hg) as (Hwf & Hh & Hw).
  destruct (X13_safe_on_square_boards g 3 [AddKnowledge (0,0) 0] Hwf Hh Hw Hp)
    as (_ & _ & Hsafe).
  destruct (make_safe_move_finds (run [AddKnowledge (0,0) 0] (init 3 3)) 0)
    as (c & Hc).
  - apply (bool_decide_unpack _). by vm_compute.
  - exists c. split; [exact Hc|]. by eapply Hsafe.
Defined.


(** ** The shape of the board, and indices out of it *)

Lemma py_index_Some {A} (l : list A) i x :
  py_index l i = Some x → ∃ k, l !! k = Some x.
Proof. unfold py_index. repeat case_decide; [eauto|eauto|done]. Qed.

Lemma py_set_Some {A} (l : list A) i x l' :
  py_set l i x = Some l' → ∃ k, l' = <[k := x]> l.
Proof. unfold py_set. repeat case_decide; intros [= <-]; eauto. Qed.

Lemma lay_shape (b : list (list bool)) i j b' (n : nat) :
  (row ← py_index b i; row' ← py_set row j true; py_set b i row') = Some b' →
  (∀ k row, b !! k = Some row → length row = n) →
  length b' = length b ∧ ∀ k row, b' !! k = Some row → length row = n.
Proof.
  intros Hlay Hrows.
  destruct (py_index b i) as [row|] eqn:Hrow; [|done]. cbn in Hlay.
  destruct (py_set row j true) as [row'|] eqn:Hrow'; [|done]. cbn in Hlay.
  apply py_index_Some in Hrow as [k0 Hk0].
  apply py_set_Some in Hrow' as [k1 ->].
  apply py_set_Some in Hlay as [k2 ->].
  split; [apply length_insert|].
  intros k r [(_ & <- & _)|[_ Hr]]%list_lookup_insert_Some.
  - rewrite length_insert. by apply (Hrows k0).
  - by apply (Hrows k).
Qed.

Lemma place_shaped target draws :
  ∀ g, board_shaped g →
  match Minesweeper.place target draws g with
  | Minesweeper.Built g' => board_shaped g'
  | _ => True
  end.
Proof.
  induction draws as [|[r1 r2] draws IH]; intros g Hsh.
  - cbn [Minesweeper.place]. by case_decide.
  - cbn [Minesweeper.place]. case_decide; [done|].
    destruct (Minesweeper.randrange (Minesweeper.height g) r1) as [i|]; [|done].
    destruct (Minesweeper.randrange (Minesweeper.width g) r2) as [j|]; [|done].
    destruct (Minesweeper.board_at g i j) as [[|]|]; [by apply IH| |done].
    destruct (row ← py_index (Minesweeper.board g) i;
              row' ← py_set row j true;
              py_set (Minesweeper.board g) i row') as [b'|] eqn:Hlay; [|done].
    apply IH. destruct Hsh as [Hlen Hrows].
    destruct (lay_shape _ _ _ _ _ Hlay Hrows) as [Hlen' Hrows'].
    split; cbn [Minesweeper.board Minesweeper.height Minesweeper.width];
      [congruence|done].
Qed.

Lemma init_shaped h w target draws g :
  Minesweeper.init h w target draws = Minesweeper.Built g → board_shaped g.
Proof.
  unfold Minesweeper.init.
  assert (board_shaped
            (Minesweeper.mkGame h w ∅ (Minesweeper.empty_board h w) ∅)) as H0.
  { split; cbn [Minesweeper.board Minesweeper.height Minesweeper.width].
    - unfold Minesweeper.empty_board. rewrite length_fmap, length_range. f_equal. lia.
    - intros i row Hrow. unfold Minesweeper.empty_board in Hrow.
      apply list_lookup_fmap_Some in Hrow as (x & -> & _).
      rewrite length_fmap, length_range. f_equal. lia. }
  pose proof (place_shaped target draws _ H0) as Hp.
  destruct (Minesweeper.place target draws _) as [g'| | |]; try done.
  intros [= <-]. exact Hp.
Qed.

(** X14: on a board the constructor built, [is_mine] follows Python's
    indexing: a row index from -height up to -1 is read as that index
    plus the height (so [is_mine((-1, j))] answers for the last row), a
    column index from -width up to -1 likewise, and a row or column
    index beyond that, on either side, is an [IndexError]. *)
Theorem X14_is_mine_indices h w target draws g i j :
  Minesweeper.init h w target draws = Minesweeper.Built g →
  ((- h ≤ i < 0) →
     Minesweeper.is_mine g (i, j) = Minesweeper.is_mine g (h + i, j)) ∧
  ((0 ≤ i < h) → (- w ≤ j < 0) →
     Minesweeper.is_mine g (i, j) = Minesweeper.is_mine g (i, w + j)) ∧
  (h ≤ i ∨ i < - h → Minesweeper.is_mine g (i, j) = None) ∧
  ((0 ≤ i < h) → w ≤ j ∨ j < - w → Minesweeper.is_mine g (i, j) = None).
Proof.
  intros Hg. destruct (init_well_formed _ _ _ _ _ Hg) as (_ & Hh & Hw).
  destruct (init_shaped _ _ _ _ _ Hg) as [Hlen Hrows].
  rewrite Hh in Hlen. rewrite Hw in Hrows.
  unfold Minesweeper.is_mine, Minesweeper.board_at. cbn [fst snd].
  split_and!.
  - intros Hi. rewrite (py_index_negative (Minesweeper.board g) i) by lia.
    do 2 f_equal. lia.
  - intros Hi Hj. rewrite py_index_nonneg by lia.
    destruct (Minesweeper.board g !! Z.to_nat i) as [row|] eqn:Hrow; [|done].
    cbn. pose proof (Hrows _ _ Hrow) as Hr.
    rewrite (py_index_negative row j) by lia. f_equal. lia.
  - intros Hi. rewrite py_index_out; [done|lia].
  - intros Hi Hj. rewrite py_index_nonneg by lia.
    destruct (Minesweeper.board g !! Z.to_nat i) as [row|] eqn:Hrow; [|done].
    cbn. pose proof (Hrows _ _ Hrow) as Hr.
    rewrite py_index_out; [done|lia].
Qed.

(** X14 on the 3 by 3 board whose one mine is (2,2): the cell (-1,2) is
    read as (2,2), and row 3 is out of range. *)
Lemma X14_is_mine_indices_witness :
  ∃ g, Minesweeper.init 3 3 1 [(2%nat, 2%nat)] = Minesweeper.Built g ∧
       Minesweeper.is_mine g (-1, 2) = Minesweeper.is_mine g (3 + -1, 2) ∧
       Minesweeper.is_mine g (3, 0) = None.
Proof.
  destruct (Minesweeper.init 3 3 1 [(2%nat, 2%nat)]) as [g| | |] eqn:Hg;
    try (vm_compute in Hg; discriminate).
  exists g. split; [reflexivity|].
  destruct (X14_is_mine_indices 3 3 1 [(2%nat, 2%nat)] g (-1) 2 Hg) as (H1 & _).
  destruct (X14_is_mine_indices 3 3 1 [(2%nat, 2%nat)] g 3 0 Hg) as (_ & _ & H3 & _).
  split; [apply H1; lia|apply H3; lia].
Defined.


(** * Sentences against a mine layout *)

(** X15: when a sentence is true of a mine layout (its count is the
    number of its cells that are mines), the cells [known_safes] returns
    are no mines and the cells [known_mines] returns are all mines; the
    sentence stays true under [mark_mine] of a mine and under [mark_safe]
    of a cell that is no mine; and the two queries both return cells only
    for the empty sentence. *)
Theorem X15_true_sentences L x :
  count x = len_set (cells x ∩ L) →
  (∀ X, Sentence.known_safes x = Some X → X ## L) ∧
  (∀ X, Sentence.known_mines x = Some X → X ⊆ L) ∧
  (∀ c, c ∈ L →
        count (Sentence.mark_mine c x) =
        len_set (cells (Sentence.mark_mine c x) ∩ L)) ∧
  (∀ c, c ∉ L →
        count (Sentence.mark_safe c x) =
        len_set (cells (Sentence.mark_safe c x) ∩ L)) ∧
  (is_Some (Sentence.known_safes x) → is_Some (Sentence.known_mines x) →
   cells x = ∅).
Proof.
  intros Hx. split_and!.
  - intros X. unfold Sentence.known_safes. case_decide as H0; [|done].
    intros [= <-]. rewrite Hx in H0. apply len_set_zero in H0. set_solver.
  - intros X. unfold Sentence.known_mines. case_decide as Hfull; [|done].
    intros [= <-]. rewrite Hx in Hfull. unfold len_set in Hfull.
    assert (cells x ∩ L ⊆ cells x) as Hsub by set_solver.
    pose proof (set_subseteq_size_eq (cells x ∩ L) (cells x) Hsub) as Heq.
    intros c Hc. rewrite <- Heq in Hc by lia. set_solver.
  - intros c Hc. change (Sentence.mark_mine c x) with (marked [] [c] x).
    apply marked_true; [by intros ? ?%elem_of_nil| |done].
    by intros ? ->%list_elem_of_singleton.
  - intros c Hc. change (Sentence.mark_safe c x) with (marked [c] [] x).
    apply marked_true; [|by intros ? ?%elem_of_nil|done].
    by intros ? ->%list_elem_of_singleton.
  - unfold Sentence.known_safes, Sentence.known_mines.
    case_decide as H0; [|by intros [? ?]].
    case_decide as Hfull; [|by intros _ [? ?]].
    intros _ _. apply len_set_zero. lia.
Qed.

(** X15 on the sentence {(0,0),(0,1)} = 1 and the layout {(0,1)}. *)
Lemma X15_true_sentences_witness :
  count (mkSentence {[(0,0); (0,1)]} 1) =
    len_set (cells (mkSentence {[(0,0); (0,1)]} 1) ∩ {[(0,1)]}) ∧
  count (Sentence.mark_mine (0,1) (mkSentence {[(0,0); (0,1)]} 1)) =
    len_set (cells (Sentence.mark_mine (0,1) (mkSentence {[(0,0); (0,1)]} 1))
             ∩ {[(0,1)]}).
Proof.
  assert (count (mkSentence {[(0,0); (0,1)]} 1) =
          len_set (cells (mkSentence {[(0,0); (0,1)]} 1) ∩ {[(0,1)]})) as Hx
    by (vm_compute; reflexivity).
  split; [exact Hx|].
  destruct (X15_true_sentences {[(0,1)]} _ Hx) as (_ & _ & Hm & _).
  apply Hm. set_solver.
Defined.

(** * The order of marking *)

(** X16: marking the cells of a list safe one after the other, or as
    mines one after the other, returns with a state that depends on the
    set of the cells only, not on their order or on repetitions: the
    cells join [safes] (or [mines]) and leave every sentence, and a
    sentence's count drops by the number of its cells marked as mines. *)
Theorem X16_marking_order_irrelevant s l1 l2 :
  (list_to_set l1 : gset cell) = list_to_set l2 →
  for_each l1 mark_safe s = for_each l2 mark_safe s ∧
  for_each l1 mark_mine s = for_each l2 mark_mine s ∧
  for_each l1 mark_mine s =
    Ret tt (mkAI (height s) (width s) (moves_made s)
                 (mines s ∪ list_to_set l1) (safes s) (unclicked s)
                 ((λ x, mkSentence (cells x ∖ list_to_set l1)
                          (count x - len_set (cells x ∩ list_to_set l1)))
                    <$> knowledge s)) ∧
  for_each l1 mark_safe s =
    Ret tt (mkAI (height s) (width s) (moves_made s) (mines s)
                 (safes s ∪ list_to_set l1) (unclicked s)
                 ((λ x, mkSentence (cells x ∖ list_to_set l1) (count x))
                    <$> knowledge s)).
Proof.
  intros Heq.
  assert (∀ l, for_each l mark_safe s =
    Ret tt (mkAI (height s) (width s) (moves_made s) (mines s)
                 (safes s ∪ list_to_set l) (unclicked s)
                 ((λ x, mkSentence (cells x ∖ list_to_set l) (count x))
                    <$> knowledge s))) as Hsafe.
  { intros l. rewrite for_each_mark_safe. do 2 f_equal.
    apply list_fmap_ext. intros i x _. apply foldl_mark_safe. }
  assert (∀ l, for_each l mark_mine s =
    Ret tt (mkAI (height s) (width s) (moves_made s)
                 (mines s ∪ list_to_set l) (safes s) (unclicked s)
                 ((λ x, mkSentence (cells x ∖ list_to_set l)
                          (count x - len_set (cells x ∩ list_to_set l)))
                    <$> knowledge s))) as Hmine.
  { intros l. rewrite for_each_mark_mine. do 2 f_equal.
    apply list_fmap_ext. intros i x _. apply foldl_mark_mine. }
  split_and!.
  - rewrite (Hsafe l1), (Hsafe l2). by rewrite Heq.
  - rewrite (Hmine l1), (Hmine l2). by rewrite Heq.
  - apply Hmine.
  - apply Hsafe.
Qed.

(** X16 on a fresh 3 by 3 grid and the lists (0,0),(0,1),(0,0) and
    (0,1),(0,0). *)
Lemma X16_marking_order_irrelevant_witness :
  for_each [(0,0); (0,1); (0,0)] mark_safe (init 3 3) =
  for_each [(0,1); (0,0)] mark_safe (init 3 3).
Proof.
  refine (proj1 (X16_marking_order_irrelevant (init 3 3)
                   [(0,0); (0,1); (0,0)] [(0,1); (0,0)] _)).
  vm_compute. reflexivity.
Defined.


(** * The invariants under honest play *)

(** ** C7: mines and safes are disjoint *)

(** C7, as stated, fails: nothing stops a cell marked as a mine from
    being marked safe as well. *)
Lemma C7_counterexample :
  ¬ (mines (run [MarkMine (0,0); MarkSafe (0,0)] (init 3 3)) ##
     safes (run [MarkMine (0,0); MarkSafe (0,0)] (init 3 3))).
Proof.
  intros Hd. apply (Hd (0,0)); apply (bool_decide_unpack _); by vm_compute.
Qed.

(** C7, amended: on a square board whose [board[i][j]] is [True] exactly
    at the mines, when a fresh engine of the same size only observes
    unclicked cells that are no mines, each with the board's
    [nearby_mines] count, and marks a cell as a mine or as safe only when
    it is one, [mines] and [safes] are disjoint after the run. *)
Theorem C7_disjoint_on_square_boards g k ops :
  Minesweeper.well_formed g →
  Minesweeper.height g = k → Minesweeper.width g = k →
  played_run g ops (init k k) = true →
  mines (run ops (init k k)) ## safes (run ops (init k k)).
Proof.
  intros Hwf Hgh Hgw Hp. apply (sound_disjoint (Minesweeper.mines g)).
  apply sound_run; [|apply sound_init].
  apply (played_run_agrees g k ops Hwf Hgh Hgw); try done.
  - apply tidy_init.
  - apply sound_init.
  - intros c Hc. by apply elem_of_init_unclicked.
Qed.

(** C7, amended, on the 2 by 2 board whose mines are all cells but
    (0,0): (0,0) is observed with the board's count 3, which confirms the
    three mines. *)
Lemma C7_disjoint_on_square_boards_witness :
  let g := Minesweeper.mkGame 2 2 {[(0,1); (1,0); (1,1)]}
             [[false; true]; [true; true]] ∅ in
  Minesweeper.init 2 2 3 [(0%nat, 1%nat); (1%nat, 0%nat); (1%nat, 1%nat)] =
    Minesweeper.Built g ∧
  played_run g [AddKnowledge (0,0) 3; MakeSafeMove 0] (init 2 2) = true ∧
  (0,1) ∈ mines (run [AddKnowledge (0,0) 3; MakeSafeMove 0] (init 2 2)) ∧
  mines (run [AddKnowledge (0,0) 3; MakeSafeMove 0] (init 2 2)) ##
  safes (run [AddKnowledge (0,0) 3; MakeSafeMove 0] (init 2 2)).
Proof.
  cbn zeta.
  set (g := Minesweeper.mkGame 2 2 {[(0,1); (1,0); (1,1)]}
              [[false; true]; [true; true]] ∅).
  assert (Minesweeper.init 2 2 3 [(0%nat, 1%nat); (1%nat, 0%nat); (1%nat, 1%nat)] =
          Minesweeper.Built g) as Hg by (vm_compute; reflexivity).
  assert (played_run g [AddKnowledge (0,0) 3; MakeSafeMove 0] (init 2 2) = true)
    as Hp by (vm_compute; reflexivity).
  split; [exact Hg|]. split; [exact Hp|].
  split; [apply (bool_decide_unpack _); by vm_compute|].
  destruct (init_well_formed _ _ _ _ _ Hg) as (Hwf & Hh & Hw).
  exact (C7_disjoint_on_square_boards g 2 _ Hwf Hh Hw Hp).
Defined.

(** On a board that is not square the swapped bounds of [add_knowledge]
    break the disjointness under honest play: on the 1 by 3 board whose
    one mine is (0,2), observing (0,0) and (0,1) with the board's counts
    0 and 1 confirms (1,0), a cell outside the grid, both as safe and as
    a mine. *)
Lemma honest_play_on_1_by_3_confirms_a_cell_twice :
  let g := Minesweeper.mkGame 1 3 {[(0,2)]} [[false; false; true]] ∅ in
  Minesweeper.init 1 3 1 [(0%nat, 2%nat)] = Minesweeper.Built g ∧
  played_run g [AddKnowledge (0,0) 0; AddKnowledge (0,1) 1] (init 1 3) = true ∧
  (1,0) ∈ mines (run [AddKnowledge (0,0) 0; AddKnowledge (0,1) 1] (init 1 3)) ∧
  (1,0) ∈ safes (run [AddKnowledge (0,0) 0; AddKnowledge (0,1) 1] (init 1 3)).
Proof.
  cbn zeta. split_and!.
  - vm_compute. reflexivity.
  - vm_compute. reflexivity.
  - apply (bool_decide_unpack _). by vm_compute.
  - apply (bool_decide_unpack _). by vm_compute.
Qed.

(** ** C2: the count invariant *)

(** C2, as stated, fails: [mark_mine] lowers the count of every sentence
    that holds the cell, whatever the count is.  On a 3 by 3 grid, after
    (0,0) is observed with count 1, marking (0,1) and then (1,0) as mines
    leaves the live sentence {(1,1)} with count -1. *)
Lemma C2_counterexample :
  ¬ (∀ x, x ∈ knowledge
            (run [AddKnowledge (0,0) 1; MarkMine (0,1); MarkMine (1,0)]
                 (init 3 3)) →
          count_ok x).
Proof.
  intros Hall.
  assert (count_ok (mkSentence {[(1,1)]} (-1))) as [Hge _].
  { apply Hall. vm_compute. left. }
  cbn [count] in Hge. lia.
Qed.

(** C2, amended: on a square board whose [board[i][j]] is [True] exactly
    at the mines, when a fresh engine of the same size only observes
    unclicked cells that are no mines, each with the board's
    [nearby_mines] count, and marks a cell as a mine or as safe only when
    it is one, every live sentence has [0 <= count <= |cells|] after the
    run. *)
Theorem C2_count_invariant_on_square_boards g k ops x :
  Minesweeper.well_formed g →
  Minesweeper.height g = k → Minesweeper.width g = k →
  played_run g ops (init k k) = true →
  x ∈ knowledge (run ops (init k k)) →
  count_ok x.
Proof.
  intros Hwf Hgh Hgw Hp Hx.
  apply (sound_count_ok (Minesweeper.mines g) (run ops (init k k))); [|exact Hx].
  apply sound_run; [|apply sound_init].
  apply (played_run_agrees g k ops Hwf Hgh Hgw); try done.
  - apply tidy_init.
  - apply sound_init.
  - intros c Hc. by apply elem_of_init_unclicked.
Qed.

(** C2, amended, on the 3 by 3 board whose one mine is (1,1): (0,0) is
    observed with the board's count 1, and (0,1) is marked safe. *)
Lemma C2_count_invariant_on_square_boards_witness :
  let g := Minesweeper.mkGame 3 3 {[(1,1)]}
             [[false; false; false]; [false; true; false]; [false; false; false]] ∅ in
  Minesweeper.init 3 3 1 [(1%nat, 1%nat)] = Minesweeper.Built g ∧
  played_run g [AddKnowledge (0,0) 1; MarkSafe (0,1)] (init 3 3) = true ∧
  count_ok (mkSentence {[(1,0); (1,1)]} 1).
Proof.
  cbn zeta.
  set (g := Minesweeper.mkGame 3 3 {[(1,1)]}
              [[false; false; false]; [false; true; false]; [false; false; false]] ∅).
  assert (Minesweeper.init 3 3 1 [(1%nat, 1%nat)] = Minesweeper.Built g) as Hg
    by (vm_compute; reflexivity).
  assert (played_run g [AddKnowledge (0,0) 1; MarkSafe (0,1)] (init 3 3) = true)
    as Hp by (vm_compute; reflexivity).
  split; [exact Hg|]. split; [exact Hp|].
  destruct (init_well_formed _ _ _ _ _ Hg) as (Hwf & Hh & Hw).
  refine (C2_count_invariant_on_square_boards g 3 _ _ Hwf Hh Hw Hp _).
  vm_compute. left.
Defined.

(** On a board that is not square the swapped bounds of [add_knowledge]
    break the count invariant under honest play: on the 2 by 4 board with
    mines (0,3), (1,2), (1,3), observing (0,2) with the board's count 3
    leaves the live sentence {(0,1),(1,1)} with count 3. *)
Lemma honest_play_on_2_by_4_overcounts :
  let g := Minesweeper.mkGame 2 4 {[(0,3); (1,2); (1,3)]}
             [[false; false; false; true]; [false; false; true; true]] ∅ in
  Minesweeper.init 2 4 3 [(0%nat, 3%nat); (1%nat, 2%nat); (1%nat, 3%nat)] =
    Minesweeper.Built g ∧
  played_run g [AddKnowledge (0,2) 3] (init 2 4) = true ∧
  knowledge (run [AddKnowledge (0,2) 3] (init 2 4)) =
    [mkSentence {[(0,1); (1,1)]} 3] ∧
  ¬ count_ok (mkSentence {[(0,1); (1,1)]} 3).
Proof.
  cbn zeta. split_and!.
  - vm_compute. reflexivity.
  - vm_compute. reflexivity.
  - vm_compute. reflexivity.
  - intros [_ Hle]. vm_compute in Hle. by apply Hle.
Qed.
